(** * j1708-stats: J1587 / J1939 decoding engine

    A shallow embedding of the decoding core of the two agents
    (agent-j1587 and the J1939 agent), of the DTC deduplication store
    (pkg/storage) and of the metric table (ProtectedData), followed by
    the properties established about them.

    Conventions.
    - A Go [byte] is a [Byte.byte]; [int(b)] is [b2z], [byte(n)] is [z2b].
    - A Go [int]/[uintN] is a [Z]; conversions to an unsigned type of
      width w are written out as a remainder modulo 2^w.  Integer [/]
      and [%] are Go's truncated [Z.quot] and [Z.rem].
    - A [float64] is a primitive binary64 float.
    - Code that may panic, park on a channel or loop returns an
      [outcome].
    - [log.Printf] calls append a [LogMsg] to the [logs] of the state;
      [time.Now()] reads the head of the [clock] oracle. *)

From Stdlib Require Import ZArith Floats Uint63 Strings.Byte Strings.Ascii.
From stdpp Require Import gmap strings list fin_maps pretty.

Open Scope Z_scope.

(* Decimal float constants denote the nearest binary64, as in Go. *)
#[local] Set Warnings "-inexact-float".

(** ** Machine data *)

Definition b2z (b : byte) : Z := Z.of_N (Byte.to_N b).

Definition z2b (n : Z) : byte :=
  default x00 (Byte.of_N (Z.to_N (n mod 256))).

Definition uint8 (n : Z) : Z := n mod 2 ^ 8.
Definition uint16 (n : Z) : Z := n mod 2 ^ 16.
Definition uint32 (n : Z) : Z := n mod 2 ^ 32.

Definition bytes (l : list Z) : list byte := z2b <$> l.

Definition len {A} (l : list A) : Z := Z.of_nat (length l).

(** [float64(n)] for an integer [n]; exact for |n| < 2^53, which covers
    every call site (the largest operand is a 32-bit odometer). *)
Definition float64 (n : Z) : float :=
  if n <? 0 then PrimFloat.opp (PrimFloat.of_uint63 (Uint63.of_Z (- n)))
  else PrimFloat.of_uint63 (Uint63.of_Z n).

(** Values stored under [any] in the metric table. *)
Inductive any : Type :=
| AFloat (f : float)
| ANil
| AString (s : string).

(** ** Outcomes of effectful code *)

Inductive outcome (A : Type) : Type :=
| Ret (a : A)      (* normal return *)
| Panic            (* run-time panic: nil dereference, index out of range *)
| Block            (* the goroutine is parked on a channel send *)
| Fuel.            (* the model ran out of fuel *)
Arguments Ret {A} a.
Arguments Panic {A}.
Arguments Block {A}.
Arguments Fuel {A}.

#[global] Instance outcome_ret : MRet outcome := fun _ a => Ret a.

#[global] Instance outcome_bind : MBind outcome := fun _ _ k m =>
  match m with
  | Ret a => k a
  | Panic => Panic
  | Block => Block
  | Fuel => Fuel
  end.

(** A partial read: [None] is a run-time panic. *)
Definition or_panic {A} (o : option A) : outcome A :=
  match o with Some a => Ret a | None => Panic end.

(** [s[i]]: panics outside [0, len s). *)
Definition index {A} (s : list A) (i : Z) : outcome A :=
  or_panic (if (0 <=? i) && (i <? len s) then s !! Z.to_nat i else None).

(** [s[lo:hi]]: modelled as panicking unless 0 <= lo <= hi <= len s (Go
    allows hi up to the capacity, so every panic of the code is one of
    the model). *)
Definition slice {A} (s : list A) (lo hi : Z) : outcome (list A) :=
  or_panic (if (0 <=? lo) && (lo <=? hi) && (hi <=? len s)
            then Some (take (Z.to_nat (hi - lo)) (drop (Z.to_nat lo) s))
            else None).

Inductive error : Type :=
| ErrDatabaseNotOpen
| ErrBucketNotFound
| ErrKeyRequired
| ErrNoLengthByte (pid : Z)
| ErrInvalidPID (pid : Z)
| ErrPortNil
| ErrNotRunning
| ErrWrite
| ErrWrap (e : error).

(** ** common: DTC records and server commands *)

Record DTCCode : Type := mkDTC {
  MID : Z;
  PID : Z;
  SPN : Z;
  FMI : Z;
  OC : Z;
  Timestamp : Z
}.

Definition CommandType := string.

Definition CommandTypeClearDTCs : CommandType := "clear_dtcs".

Record CommandParams : Type := mkParams {
  TargetMID : option byte;
  ParamSPN : option Z;
  ParamFMI : option Z
}.

Record ServerCommand : Type := mkCommand {
  Type_ : CommandType;
  Params : CommandParams
}.

(** ** Channels

    A buffered channel is its buffer and its capacity.  A plain send
    parks the sender while the buffer is full; a send inside
    [select { ... default: }] takes the default arm instead. *)

Record chan (A : Type) : Type := mkChan {
  buf : list A;
  cap : nat
}.
Arguments mkChan {A} buf cap.
Arguments buf {A} c.
Arguments cap {A} c.

Definition make_chan {A} (n : nat) : chan A := mkChan [] n.

Definition chan_full {A} (c : chan A) : bool := (cap c <=? length (buf c))%nat.

Definition chan_push {A} (c : chan A) (x : A) : chan A :=
  mkChan (buf c ++ [x]) (cap c).

(** ** The bbolt key-value store, as far as pkg/storage uses it

    A database is a set of named buckets, each a map from keys to
    values.  [Update] runs a function inside a write transaction: on a
    closed database it fails with [ErrDatabaseNotOpen] without running
    it; a nil result commits the buckets the function leaves, an error
    rolls them back; a panic of the function unwinds through [Update].
    [Bucket] returns nil for a missing bucket, and the methods of a nil
    bucket dereference it.  Keys of this program are at most 14
    characters, so the size limits of [Put] are left out. *)

Module bolt.

Abbreviation Bucket := (gmap string (list byte)).

Abbreviation Tx := (gmap string Bucket).

Record DB : Type := mkDB {
  opened : bool;
  buckets : Tx
}.

Definition TxBucket (tx : Tx) (name : string) : option Bucket := tx !! name.

Definition CreateBucketIfNotExists (tx : Tx) (name : string) : Tx * option error :=
  match tx !! name with
  | Some _ => (tx, None)
  | None => (<[name := ∅]> tx, None)
  end.

Definition DeleteBucket (tx : Tx) (name : string) : Tx * option error :=
  match tx !! name with
  | Some _ => (delete name tx, None)
  | None => (tx, Some ErrBucketNotFound)
  end.

Definition Get (b : Bucket) (key : string) : option (list byte) := b !! key.

Definition Put (b : Bucket) (key : string) (value : list byte) : Bucket * option error :=
  if decide (key = "") then (b, Some ErrKeyRequired)
  else (<[key := value]> b, None).

Definition Delete (b : Bucket) (key : string) : Bucket * option error :=
  (delete key b, None).

(** [db.Update(fn)]; [fn] also returns the values it assigns to the
    variables it captures (type [R]), [r0] being their initial value. *)
Definition Update {R} (db : DB) (r0 : R) (fn : Tx -> outcome (Tx * R * option error))
  : outcome (DB * R * option error) :=
  if opened db then
    '(tx, r, err) ← fn (buckets db);
    match err with
    | None => Ret (mkDB true tx, r, None)
    | Some e => Ret (db, r, Some e)
    end
  else Ret (db, r0, Some ErrDatabaseNotOpen).

Definition Close (db : DB) : DB := mkDB false (buckets db).

End bolt.

(** ** pkg/storage: the DTC deduplication store *)

Module storage.

Definition bucketKey : string := "active_dtcs".

(** [fmt.Sprintf("%d:%d", spn, fmi)] *)
Definition key (spn fmi : Z) : string := pretty spn +:+ ":" +:+ pretty fmi.

(** [OpenDB] on the buckets found in the file at [path]. *)
Definition OpenDB (file : bolt.Tx) : outcome (bolt.DB * option error) :=
  '(db, _, err) ← bolt.Update (bolt.mkDB true file) tt (fun tx =>
    let '(tx', err) := bolt.CreateBucketIfNotExists tx bucketKey in
    Ret (tx', tt, err));
  match err with
  | Some e => Ret (bolt.Close db, Some e)
  | None => Ret (db, None)
  end.

Definition IsNew (db : bolt.DB) (spn fmi : Z) : outcome (bolt.DB * bool * option error) :=
  let key := key spn fmi in
  bolt.Update db false (fun tx =>
    b ← or_panic (bolt.TxBucket tx bucketKey);    (* b.Get on a nil bucket *)
    match bolt.Get b key with
    | None =>
        let '(b', err) := bolt.Put b key [x01] in
        Ret (<[bucketKey := b']> tx, true, err)
    | Some _ => Ret (tx, false, None)
    end).

Definition Remove (db : bolt.DB) (spn fmi : Z) : outcome (bolt.DB * option error) :=
  let key := key spn fmi in
  '(db', _, err) ← bolt.Update db tt (fun tx =>
    b ← or_panic (bolt.TxBucket tx bucketKey);    (* b.Delete on a nil bucket *)
    let '(b', err) := bolt.Delete b key in
    Ret (<[bucketKey := b']> tx, tt, err));
  Ret (db', err).

Definition ClearAll (db : bolt.DB) : outcome (bolt.DB * option error) :=
  '(db', _, err) ← bolt.Update db tt (fun tx =>
    let '(tx', err) := bolt.DeleteBucket tx bucketKey in
    Ret (tx', tt, err));
  Ret (db', err).

End storage.

(** ** Log messages

    One constructor per [log.Printf]/[log.Println] of the modelled
    functions, with the values the message is formatted from. *)

Inductive LogMsg : Type :=
| LogFrameTooShort (n : Z)
| LogBadChecksum (frame : list byte)
| LogParsing (mid : Z) (data : list byte)
| LogLengthError (pid : byte) (e : error)
| LogNoLengthByte (pid : byte)
| LogShortData (pid : byte) (need avail : Z)
| LogProcessing (pid : byte) (paramData : list byte)
| LogDTCChanFull (pid : Z)
| LogUnknownPID (pid mid : Z)
| LogSending (mid pid : byte) (data : list byte) (checksum : byte)
| LogClearSent (targetMID : byte)
| LogClearingStore
| LogClearStoreError (e : error)
| LogClearStoreOK
| LogCommand (cmd : ServerCommand)
| LogClearFailed (e : error)
| LogClearDone (targetMID : byte)
| LogUnknownCommand (t : CommandType)
| LogDTCReceived (dtc : DTCCode)
| LogIsNewError (spn fmi : Z) (e : error)
| LogNewDTC (spn fmi : Z)
| LogDuplicateDTC (spn fmi : Z)
| LogDMBadLength (n : Z) (sa : Z)
| LogDM1IsNewError (sa spn fmi : Z) (e : error)
| LogDM1NoDB.

(** [time.Now().UnixNano()] on a clock oracle: the readings still to
    come. *)
Definition time_Now (clock : list Z) : Z * list Z := (hd 0 clock, tl clock).

(** ** The metric table (data.go, both agents)

    [ProtectedData] guards a [map[string]any] with a mutex; the methods
    are modelled in the order the lock serialises them.  The map is a
    reference: a heap maps each map object to its contents, so that
    [Copy] is seen to allocate a map of its own. *)

Module pd.

Abbreviation loc := positive.

Abbreviation heap := (gmap loc (gmap string any)).

Record ProtectedData : Type := mkPD { Data : loc }.

Record copiedDataMarshaler : Type := mkCopied { data : loc }.

(** [make(map[string]any, n)] *)
Definition make_map (h : heap) : loc * heap :=
  let l := fresh (dom h) in (l, <[l := ∅]> h).

(** [h[l][key] = value]; assignment through a nil map panics. *)
Definition map_assign (l : loc) (key : string) (value : any) (h : heap) : outcome heap :=
  m ← or_panic (h !! l);
  Ret (<[l := <[key := value]> m]> h).

(** [for k, v := range src { dst[k] = v }] *)
Definition range_copy (src dst : loc) (h : heap) : outcome heap :=
  m ← or_panic (h !! src);
  map_fold (fun k v acc => h' ← acc; map_assign dst k v h') (Ret h) m.

Definition NewProtectedData (h : heap) : ProtectedData * heap :=
  let '(l, h) := make_map h in (mkPD l, h).

Definition Set_ (p : ProtectedData) (key : string) (value : any) (h : heap) : outcome heap :=
  map_assign (Data p) key value h.

Definition Get (p : ProtectedData) (key : string) (h : heap) : outcome (option any) :=
  m ← or_panic (h !! Data p);
  Ret (m !! key).

Definition Copy (p : ProtectedData) (h : heap) : outcome (copiedDataMarshaler * heap) :=
  let '(copiedData, h) := make_map h in
  h ← range_copy (Data p) copiedData h;
  Ret (mkCopied copiedData, h).

(** The map both [MarshalJSON] methods build from the map at [src]
    and hand to [json.Marshal]; [now] is
    [time.Now().UTC().Format(time.RFC3339Nano)]. *)
Definition dataToMarshal (src : loc) (now : string) (h : heap)
  : outcome (gmap string any * heap) :=
  let '(dataToMarshal, h) := make_map h in
  h ← range_copy src dataToMarshal h;
  h ← map_assign dataToMarshal "timestamp" (AString now) h;
  m ← or_panic (h !! dataToMarshal);
  Ret (m, h).

Section Marshal.

(** [encoding/json]'s [Marshal] on a [map[string]any]. *)
Variable json_Marshal : gmap string any -> list byte * option error.

Definition MarshalJSON (p : ProtectedData) (now : string) (h : heap)
  : outcome (list byte * option error * heap) :=
  '(m, h) ← dataToMarshal (Data p) now h;
  Ret (json_Marshal m, h).

Definition copied_MarshalJSON (c : copiedDataMarshaler) (now : string) (h : heap)
  : outcome (list byte * option error * heap) :=
  '(m, h) ← dataToMarshal (data c) now h;
  Ret (json_Marshal m, h).

End Marshal.

End pd.

(** ** agent-j1587: the J1587 bus (bus.go, the checksum-validating
    decoder, and main.go's command handler) *)

Module j1587.

Definition PID_VEHICLE_SPEED : Z := 84.
Definition PID_ENGINE_RPM : Z := 190.
Definition PID_COOLANT_TEMP : Z := 110.
Definition PID_OIL_PRESSURE : Z := 100.
Definition PID_ENGINE_LOAD : Z := 91.
Definition PID_FUEL_LEVEL : Z := 96.
Definition PID_BATTERY_VOLTAGE : Z := 168.
Definition PID_AMBIENT_TEMP : Z := 171.
Definition PID_TOTAL_DISTANCE : Z := 245.
Definition PID_ACTIVE_DTC : Z := 194.
Definition PID_PREVIOUSLY_ACTIVE_DTC : Z := 195.
Definition PID_COMMAND_CLEAR_DTCS : Z := 250.

(** The serial port: the frames written so far, and whether the
    device still takes writes. *)
Record Port : Type := mkPort {
  wire : list (list byte);
  healthy : bool
}.

Definition Write (p : Port) (frame : list byte) : Port * option error :=
  if healthy p then (mkPort (wire p ++ [frame]) true, None)
  else (p, Some ErrWrite).

(** [Bus]; the metric table is held by value (these functions are
    its only writer), the frame and stop channels play no part in the
    functions below. *)
Record Bus : Type := mkBus {
  port : option Port;
  data : gmap string any;
  isRunning : bool;
  dtcChan : chan DTCCode;
  db : option bolt.DB;
  logs : list LogMsg;
  clock : list Z
}.

Definition log (m : LogMsg) (p : Bus) : Bus :=
  mkBus (port p) (data p) (isRunning p) (dtcChan p) (db p) (logs p ++ [m]) (clock p).

(** [p.data.Set(key, value)] *)
Definition Set_ (key : string) (value : any) (p : Bus) : Bus :=
  mkBus (port p) (<[key := value]> (data p)) (isRunning p) (dtcChan p) (db p)
        (logs p) (clock p).

Definition with_port (q : Port) (p : Bus) : Bus :=
  mkBus (Some q) (data p) (isRunning p) (dtcChan p) (db p) (logs p) (clock p).

Definition with_dtcChan (c : chan DTCCode) (p : Bus) : Bus :=
  mkBus (port p) (data p) (isRunning p) c (db p) (logs p) (clock p).

Definition with_db (d : bolt.DB) (p : Bus) : Bus :=
  mkBus (port p) (data p) (isRunning p) (dtcChan p) (Some d) (logs p) (clock p).

Definition with_clock (c : list Z) (p : Bus) : Bus :=
  mkBus (port p) (data p) (isRunning p) (dtcChan p) (db p) (logs p) c.

(** [sum := 0; for _, b := range frame { sum += int(b) }] *)
Definition byte_sum (frame : list byte) : Z :=
  fold_left (fun sum b => sum + b2z b) frame 0.

Definition calculateJ1587Checksum (frame : list byte) : byte :=
  z2b (256 - Z.rem (byte_sum frame) 256).

Definition validateJ1587Checksum (frame : list byte) : bool :=
  if len frame <? 3 then false
  else Z.rem (byte_sum frame) 256 =? 0.

(** The frame [SendFrame] assembles and writes. *)
Definition frameWithChecksum (mid pid : byte) (data : list byte) : list byte :=
  let frame := [mid] ++ [pid] ++ data in
  frame ++ [calculateJ1587Checksum frame].

Definition getPIDDataLength (pid : byte) (data : list byte) (offset : Z)
  : outcome (Z * option error) :=
  if (0 <=? b2z pid) && (b2z pid <=? 127) then Ret (1, None)
  else if (128 <=? b2z pid) && (b2z pid <=? 191) then Ret (2, None)
  else if (192 <=? b2z pid) && (b2z pid <=? 253) then
    if offset >=? len data then Ret (0, Some (ErrNoLengthByte (b2z pid)))
    else
      l ← index data offset;
      Ret (b2z l, None)
  else Ret (0, Some (ErrInvalidPID (b2z pid))).

(** [select { case p.dtcChan <- dtc: default: log... }] *)
Definition offer_dtc (dtc : DTCCode) (pid : Z) (p : Bus) : Bus :=
  if chan_full (dtcChan p) then log (LogDTCChanFull pid) p
  else with_dtcChan (chan_push (dtcChan p) dtc) p.

Definition processPIDData (mid pid : Z) (paramData : list byte) (p : Bus) : Bus :=
  if pid =? PID_VEHICLE_SPEED then
    match paramData with
    | b0 :: _ => Set_ "Speed" (AFloat (float64 (b2z b0))) p
    | _ => p
    end
  else if pid =? PID_ENGINE_RPM then
    match paramData with
    | b0 :: b1 :: _ =>
        Set_ "EngineRPM" (AFloat (float64 (Z.quot (b2z b0 * 256 + b2z b1) 8))) p
    | _ => p
    end
  else if pid =? PID_COOLANT_TEMP then
    match paramData with
    | b0 :: _ => Set_ "EngineCoolantTemp" (AFloat (float64 (b2z b0 - 40))) p
    | _ => p
    end
  else if pid =? PID_OIL_PRESSURE then
    match paramData with
    | b0 :: _ => Set_ "EngineOilPressure" (AFloat (float64 (b2z b0) * 4.0)%float) p
    | _ => p
    end
  else if pid =? PID_ENGINE_LOAD then
    match paramData with
    | b0 :: _ => Set_ "EngineLoad" (AFloat (float64 (b2z b0))) p
    | _ => p
    end
  else if pid =? PID_FUEL_LEVEL then
    match paramData with
    | b0 :: _ => Set_ "FuelLevel" (AFloat (float64 (b2z b0) / 2.55)%float) p
    | _ => p
    end
  else if pid =? PID_BATTERY_VOLTAGE then
    match paramData with
    | b0 :: _ => Set_ "BatteryVoltage" (AFloat (float64 (b2z b0) * 0.1)%float) p
    | _ => p
    end
  else if pid =? PID_AMBIENT_TEMP then
    match paramData with
    | b0 :: _ => Set_ "AmbientAirTemp" (AFloat (float64 (b2z b0 - 40))) p
    | _ => p
    end
  else if pid =? PID_TOTAL_DISTANCE then
    match paramData with
    | b0 :: b1 :: b2 :: b3 :: _ =>
        let raw := Z.lor (Z.lor (Z.lor (Z.shiftl (b2z b0) 24) (Z.shiftl (b2z b1) 16))
                                (Z.shiftl (b2z b2) 8)) (b2z b3) in
        Set_ "TotalDistance" (AFloat (float64 raw * 0.1)%float) p
    | _ => p
    end
  else if (pid =? PID_ACTIVE_DTC) || (pid =? PID_PREVIOUSLY_ACTIVE_DTC) then
    match paramData with
    | b0 :: fmiAndPidHigh :: _ :: _ =>
        let dtcCodeRaw := b2z b0 in
        let fmi := Z.land (b2z fmiAndPidHigh) 15 in
        let '(now, clock') := time_Now (clock p) in
        let dtc := mkDTC mid pid dtcCodeRaw fmi 0 now in
        offer_dtc dtc pid (with_clock clock' p)
    | _ => p
    end
  else log (LogUnknownPID pid mid) p.

(** The PID/data walk of [parseFrame], from [offset]; every turn of
    the loop consumes at least the PID byte, so [len data] turns of
    fuel are enough. *)
Fixpoint walk (fuel : nat) (mid : Z) (data : list byte) (offset : Z) (p : Bus)
  : outcome Bus :=
  match fuel with
  | O => if offset <? len data then Fuel else Ret p
  | S fuel =>
      if offset <? len data then
        pid ← index data offset;
        let offset := offset + 1 in
        '(dataLength, err) ← getPIDDataLength pid data offset;
        match err with
        | Some e => Ret (log (LogLengthError pid e) p)
        | None =>
            let variable := (192 <=? b2z pid) && (b2z pid <=? 253) in
            if variable && (offset >=? len data) then
              Ret (log (LogNoLengthByte pid) p)
            else
              '(dataLength, offset) ←
                (if variable then
                   l ← index data offset;
                   Ret (b2z l, offset + 1)
                 else Ret (dataLength, offset));
              if offset + dataLength >? len data then
                Ret (log (LogShortData pid dataLength (len data - offset)) p)
              else
                paramData ← slice data offset (offset + dataLength);
                let offset := offset + dataLength in
                walk fuel mid data offset
                  (processPIDData mid (b2z pid) paramData
                     (log (LogProcessing pid paramData) p))
        end
      else Ret p
  end.

Definition parseFrame (frame : list byte) (p : Bus) : outcome Bus :=
  if len frame <? 3 then Ret (log (LogFrameTooShort (len frame)) p)
  else if negb (validateJ1587Checksum frame) then Ret (log (LogBadChecksum frame) p)
  else
    m ← index frame 0;
    let mid := b2z m in
    data ← slice frame 1 (len frame - 1);
    walk (length data) mid data 0 (log (LogParsing mid data) p).

Definition SendFrame (mid pid : byte) (data : list byte) (p : Bus) : Bus * option error :=
  match port p with
  | None => (p, Some ErrPortNil)
  | Some q =>
      if negb (isRunning p) then (p, Some ErrNotRunning)
      else
        let frame := [mid] ++ [pid] ++ data in
        let checksum := calculateJ1587Checksum frame in
        let frameWithChecksum := frame ++ [checksum] in
        let p := log (LogSending mid pid data checksum) p in
        let '(q, err) := Write q frameWithChecksum in
        match err with
        | Some e => (with_port q p, Some (ErrWrap e))
        | None => (with_port q p, None)
        end
  end.

Definition ClearActiveDTCs (targetMID : byte) (p : Bus) : outcome (Bus * option error) :=
  let commandData : list byte := [] in
  let '(p, err) := SendFrame targetMID (z2b PID_COMMAND_CLEAR_DTCS) commandData p in
  match err with
  | Some e => Ret (p, Some (ErrWrap e))
  | None =>
      let p := log (LogClearSent targetMID) p in
      match db p with
      | Some d =>
          let p := log LogClearingStore p in
          '(d, err) ← storage.ClearAll d;
          let p := with_db d p in
          match err with
          | Some e => Ret (log (LogClearStoreError e) p, None)
          | None => Ret (log LogClearStoreOK p, None)
          end
      | None => Ret (p, None)
      end
  end.

(** pkg/mqtt's client, as the sink of DTC records. *)
Record MQTTClient : Type := mkMQTT {
  connected : bool;
  published : list DTCCode
}.

Definition PublishDTC (dtc : DTCCode) (c : MQTTClient) : MQTTClient :=
  if connected c then mkMQTT true (published c ++ [dtc]) else c.

(** One turn of the loop of [StartProcessingDTCs] through the arm
    [case dtc, ok := <-p.dtcChan] with [ok] true: [dtc] has just been
    received. *)
Definition StartProcessingDTCs_recv (dtc : DTCCode) (p : Bus) (mqttClient : MQTTClient)
  : outcome (Bus * MQTTClient) :=
  let p := log (LogDTCReceived dtc) p in
  d ← or_panic (db p);                           (* db.Update on a nil *DB *)
  '(d, isNew, err) ← storage.IsNew d (uint32 (SPN dtc)) (uint8 (FMI dtc));
  let p := with_db d p in
  match err with
  | Some e => Ret (log (LogIsNewError (SPN dtc) (FMI dtc) e) p, mqttClient)   (* continue *)
  | None =>
      if (isNew : bool) then
        Ret (log (LogNewDTC (SPN dtc) (FMI dtc)) p, PublishDTC dtc mqttClient)
      else Ret (log (LogDuplicateDTC (SPN dtc) (FMI dtc)) p, mqttClient)
  end.

Definition handleMQTTCommand (bus : Bus) (cmd : ServerCommand) : outcome (Bus * option error) :=
  let bus := log (LogCommand cmd) bus in
  if String.eqb (Type_ cmd) "clear_dtc" then
    let targetMID := match TargetMID (Params cmd) with
                     | Some t => t
                     | None => z2b 128
                     end in
    '(bus, err) ← ClearActiveDTCs targetMID bus;
    match err with
    | Some e => Ret (log (LogClearFailed e) bus, Some (ErrWrap e))
    | None => Ret (log (LogClearDone targetMID) bus, None)
    end
  else Ret (log (LogUnknownCommand (Type_ cmd)) bus, None).

(** *** The frame assembler ([readFrames])

    Times are nanoseconds.  One [Read] is one return of [p.port.Read]
    together with the [time.Now()] taken right after it; an error other
    than [io.EOF] is [rd_err].  [asm_sent] lists the frames sent on
    [p.frames], oldest first. *)

Definition interFrameGap : Z := 4 * 1000000.

Record Read : Type := mkRead {
  rd_bytes : list byte;
  rd_err : option error;
  rd_now : Z
}.

Record Assembler : Type := mkAsm {
  asm_frame : list byte;
  asm_last : Z;
  asm_sent : list (list byte);
  asm_errs : list error
}.

(** [p.frames <- frame; frame = nil] *)
Definition flush (a : Assembler) : Assembler :=
  mkAsm [] (asm_last a) (asm_sent a ++ [asm_frame a]) (asm_errs a).

(** The body of [for i := 0; i < n; i++] for the byte [buf[i]]. *)
Definition take_byte (now : Z) (a : Assembler) (b : byte) : Assembler :=
  let a := if (now - asm_last a >=? interFrameGap) && (len (asm_frame a) >? 0)
           then flush a else a in
  mkAsm (asm_frame a ++ [b]) now (asm_sent a) (asm_errs a).

(** One turn of the loop of [readFrames] through its [default] arm. *)
Definition read_turn (a : Assembler) (r : Read) : Assembler :=
  let now := rd_now r in
  let a := match rd_err r with
           | Some e => mkAsm (asm_frame a) (asm_last a) (asm_sent a) (asm_errs a ++ [e])
           | None => a
           end in
  if len (rd_bytes r) =? 0 then
    if (len (asm_frame a) >? 0) && (now - asm_last a >=? interFrameGap)
    then flush a else a
  else foldl (take_byte now) a (rd_bytes r).

(** [readFrames] over the reads [reads], started at time [start]. *)
Definition readFrames (start : Z) (reads : list Read) : Assembler :=
  foldl read_turn (mkAsm [] start [] []) reads.

(** *** Start and stop

    [stop_closed] tells whether [p.stopChan] has been closed; closing a
    closed channel panics. *)

Inductive StartError : Type :=
| ErrAlreadyRunning
| ErrPortNotInitialised.

Record Session : Type := mkSession {
  sess_bus : Bus;
  stop_closed : bool
}.

Definition with_isRunning (r : bool) (p : Bus) : Bus :=
  mkBus (port p) (data p) r (dtcChan p) (db p) (logs p) (clock p).

Definition StartReading (s : Session) : Session * option StartError :=
  if isRunning (sess_bus s) then (s, Some ErrAlreadyRunning)
  else match port (sess_bus s) with
       | None => (s, Some ErrPortNotInitialised)
       | Some _ => (mkSession (with_isRunning true (sess_bus s)) (stop_closed s), None)
       end.

Definition StopReading (s : Session) : outcome Session :=
  if negb (isRunning (sess_bus s)) then Ret s
  else if stop_closed s then Panic                   (* close of a closed channel *)
  else Ret (mkSession (with_isRunning false (sess_bus s)) true).

End j1587.

(** ** The J1939 agent: the frame processor (the parsers of PGN
    0xF004, EEC1, and of PGN 0xFECA and 0xFECB, DM1 and DM2) *)

Module j1939.

Record FrameProcessor : Type := mkFP {
  data : gmap string any;
  dtcChan : chan DTCCode;
  db : option bolt.DB;
  logs : list LogMsg;
  clock : list Z
}.

Definition log (m : LogMsg) (fp : FrameProcessor) : FrameProcessor :=
  mkFP (data fp) (dtcChan fp) (db fp) (logs fp ++ [m]) (clock fp).

(** [fp.data.Set(key, value)] *)
Definition Set_ (key : string) (value : any) (fp : FrameProcessor) : FrameProcessor :=
  mkFP (<[key := value]> (data fp)) (dtcChan fp) (db fp) (logs fp) (clock fp).

Definition with_dtcChan (c : chan DTCCode) (fp : FrameProcessor) : FrameProcessor :=
  mkFP (data fp) c (db fp) (logs fp) (clock fp).

Definition with_db (d : bolt.DB) (fp : FrameProcessor) : FrameProcessor :=
  mkFP (data fp) (dtcChan fp) (Some d) (logs fp) (clock fp).

Definition with_clock (c : list Z) (fp : FrameProcessor) : FrameProcessor :=
  mkFP (data fp) (dtcChan fp) (db fp) (logs fp) c.

Definition parseEEC1 (data : list byte) (fp : FrameProcessor) : FrameProcessor :=
  match data with
  | _ :: _ :: d2 :: d3 :: d4 :: _ =>
      let fp :=
        if negb (b2z d3 =? 0xFF) || negb (b2z d4 =? 0xFF) then
          let rpmRaw := Z.lor (uint16 (b2z d3)) (uint16 (Z.shiftl (uint16 (b2z d4)) 8)) in
          let rpm := (float64 rpmRaw * 0.125)%float in
          Set_ "EngineRPM" (AFloat rpm) fp
        else Set_ "EngineRPM" ANil fp in
      if negb (b2z d2 =? 0xFF) then
        let load := (float64 (b2z d2) - 125.0)%float in
        Set_ "EngineLoad" (AFloat load) fp
      else Set_ "EngineLoad" ANil fp
  | _ => fp                                       (* len(data) < 5 *)
  end.

(** [fp.dtcChan <- dtc]: a plain send, which parks the processor
    while the buffer is full. *)
Definition send_dtc (dtc : DTCCode) (fp : FrameProcessor) : outcome FrameProcessor :=
  if chan_full (dtcChan fp) then Block
  else Ret (with_dtcChan (chan_push (dtcChan fp) dtc) fp).

(** The fields of the 4-byte DTC entry at [offset]. *)
Definition dtc_entry (data : list byte) (offset : Z) : outcome (Z * Z * Z) :=
  e0 ← index data offset;
  e1 ← index data (offset + 1);
  e2 ← index data (offset + 2);
  e3 ← index data (offset + 3);
  let spnLow := uint16 (b2z e0) in
  let spnMid := uint16 (b2z e1) in
  let spnHighBits := uint8 (Z.shiftr (b2z e2) 5) in
  let spn := Z.lor (Z.lor (uint32 spnLow) (uint32 (Z.shiftl (uint32 spnMid) 8)))
                   (uint32 (Z.shiftl (uint32 spnHighBits) 16)) in
  let fmi := uint8 (Z.land (b2z e2) 0x1F) in
  let oc := Z.land (b2z e3) 0x7F in
  Ret (spn, fmi, oc).

(** The loop of [parseDM1] from index [i], with [n] turns left. *)
Fixpoint parseDM1_loop (n : nat) (i : Z) (data : list byte) (sa : Z)
    (fp : FrameProcessor) : outcome FrameProcessor :=
  match n with
  | O => Ret fp
  | S n =>
      let offset := 2 + i * 4 in
      if offset + 3 >=? len data then Ret fp
      else
        '(spn, fmi, oc) ← dtc_entry data offset;
        '(fp, skip) ←
          match db fp with
          | Some d =>
              '(d, isNew, err) ← storage.IsNew d spn fmi;
              let fp := with_db d fp in
              match err with
              | Some e => Ret (log (LogDM1IsNewError sa spn fmi e) fp, false)
              | None => Ret (fp, negb isNew)
              end
          | None => Ret (log LogDM1NoDB fp, false)
          end;
        if (skip : bool) then parseDM1_loop n (i + 1) data sa fp
        else
          let '(now, clock') := time_Now (clock fp) in
          let dtc := mkDTC sa 0 spn fmi oc now in
          fp ← send_dtc dtc (with_clock clock' fp);
          parseDM1_loop n (i + 1) data sa fp
  end.

Definition parseDM1 (data : list byte) (sa : Z) (fp : FrameProcessor)
  : outcome FrameProcessor :=
  if len data <? 6 then Ret fp
  else
    let numDTCs := Z.quot (len data - 2) 4 in
    let fp := if negb (Z.rem (len data - 2) 4 =? 0)
              then log (LogDMBadLength (len data) sa) fp else fp in
    parseDM1_loop (Z.to_nat numDTCs) 0 data sa fp.

Fixpoint parseDM2_loop (n : nat) (i : Z) (data : list byte) (sa : Z)
    (fp : FrameProcessor) : outcome FrameProcessor :=
  match n with
  | O => Ret fp
  | S n =>
      let offset := 2 + i * 4 in
      if offset + 3 >=? len data then Ret fp
      else
        '(spn, fmi, oc) ← dtc_entry data offset;
        let '(now, clock') := time_Now (clock fp) in
        let dtc := mkDTC sa 0 spn fmi oc now in
        fp ← send_dtc dtc (with_clock clock' fp);
        parseDM2_loop n (i + 1) data sa fp
  end.

Definition parseDM2 (data : list byte) (sa : Z) (fp : FrameProcessor)
  : outcome FrameProcessor :=
  if len data <? 6 then Ret fp
  else
    let numDTCs := Z.quot (len data - 2) 4 in
    let fp := if negb (Z.rem (len data - 2) 4 =? 0)
              then log (LogDMBadLength (len data) sa) fp else fp in
    parseDM2_loop (Z.to_nat numDTCs) 0 data sa fp.

(** [binary.LittleEndian.Uint16(b)] and [Uint32(b)]; both panic on a
    slice that is too short. *)
Definition LittleEndian_Uint16 (b : list byte) : outcome Z :=
  b1 ← index b 1;
  b0 ← index b 0;
  Ret (Z.lor (uint16 (b2z b0)) (uint16 (Z.shiftl (uint16 (b2z b1)) 8))).

Definition LittleEndian_Uint32 (b : list byte) : outcome Z :=
  b3 ← index b 3;
  b0 ← index b 0;
  b1 ← index b 1;
  b2 ← index b 2;
  Ret (Z.lor (Z.lor (Z.lor (uint32 (b2z b0)) (uint32 (Z.shiftl (uint32 (b2z b1)) 8)))
                    (uint32 (Z.shiftl (uint32 (b2z b2)) 16)))
             (uint32 (Z.shiftl (uint32 (b2z b3)) 24))).

(** [int32(x)] of a [uint32]. *)
Definition int32 (x : Z) : Z :=
  let u := uint32 x in if u <? 2 ^ 31 then u else u - 2 ^ 32.

Definition parseVehiclePosition (data : list byte) (fp : FrameProcessor)
  : outcome FrameProcessor :=
  match data with
  | d0 :: d1 :: d2 :: d3 :: d4 :: d5 :: d6 :: d7 :: _ =>
      fp ←
        (if negb ((b2z d0 =? 0xFF) && (b2z d1 =? 0xFF) && (b2z d2 =? 0xFF) && (b2z d3 =? 0xFF))
         then
           s ← slice data 0 4;
           u ← LittleEndian_Uint32 s;
           let latRaw := int32 u in
           let lat := (float64 latRaw * 1e-7)%float in
           Ret (Set_ "Latitude" (AFloat lat) fp)
         else Ret (Set_ "Latitude" ANil fp));
      if negb ((b2z d4 =? 0xFF) && (b2z d5 =? 0xFF) && (b2z d6 =? 0xFF) && (b2z d7 =? 0xFF))
      then
        s ← slice data 4 8;
        u ← LittleEndian_Uint32 s;
        let lonRaw := int32 u in
        let lon := (float64 lonRaw * 1e-7)%float in
        Ret (Set_ "Longitude" (AFloat lon) fp)
      else Ret (Set_ "Longitude" ANil fp)
  | _ => Ret fp                                     (* len(data) < 8 *)
  end.

Definition parseFuelConsumption (data : list byte) (fp : FrameProcessor)
  : outcome FrameProcessor :=
  match data with
  | d0 :: d1 :: _ =>
      if negb (b2z d0 =? 0xFF) || negb (b2z d1 =? 0xFF) then
        s ← slice data 0 2;
        fuelRateRaw ← LittleEndian_Uint16 s;
        let fuelRate := (float64 fuelRateRaw * 0.05)%float in
        Ret (Set_ "FuelConsumption" (AFloat fuelRate) fp)
      else Ret (Set_ "FuelConsumption" ANil fp)
  | _ => Ret fp                                     (* len(data) < 2 *)
  end.

Definition parseAmbientConditions (data : list byte) (fp : FrameProcessor)
  : outcome FrameProcessor :=
  match data with
  | d0 :: d1 :: _ =>
      if (b2z d0 =? 0xFF) && (b2z d1 =? 0xFF) then Ret (Set_ "AmbientAirTemp" ANil fp)
      else
        s ← slice data 0 2;
        tempRawUnsigned ← LittleEndian_Uint16 s;
        let temp := (float64 tempRawUnsigned * 0.03125 - 273.0)%float in
        Ret (Set_ "AmbientAirTemp" (AFloat temp) fp)
  | _ => Ret fp                                     (* len(data) < 2 *)
  end.

Definition pgnEEC1 : Z := 0xF004.
Definition pgnLFE : Z := 0xFEF2.
Definition pgnGPS : Z := 0xFEF1.
Definition pgnAmb : Z := 0xFEF5.
Definition pgnDM1 : Z := 0xFECA.
Definition pgnDM2 : Z := 0xFECB.

Definition ProcessFrame (pgn : Z) (sa : Z) (data : list byte) (fp : FrameProcessor)
  : outcome FrameProcessor :=
  if pgn =? pgnEEC1 then Ret (parseEEC1 data fp)
  else if pgn =? pgnGPS then parseVehiclePosition data fp
  else if pgn =? pgnLFE then parseFuelConsumption data fp
  else if pgn =? pgnAmb then parseAmbientConditions data fp
  else if pgn =? pgnDM1 then parseDM1 data sa fp
  else if pgn =? pgnDM2 then parseDM2 data sa fp
  else Ret fp.

End j1939.

(** ** Notions used in the statements *)

Module obs.

(** The data length the J1587 range table fixes for [pid]: the first
    two cases of [getPIDDataLength]. *)
Definition fixed_length (pid : byte) : option Z :=
  if b2z pid <=? 127 then Some 1
  else if b2z pid <=? 191 then Some 2
  else None.

(** The PID/data blocks a run of [parseFrame] handed to
    [processPIDData], read off its log. *)
Definition blocks (l : list LogMsg) : list (byte * list byte) :=
  omap (fun m => match m with
                 | LogProcessing pid paramData => Some (pid, paramData)
                 | _ => None
                 end) l.

(** A J1587 bus before [StartReading], with no port and no store. *)
Definition idle_bus : j1587.Bus :=
  j1587.mkBus None ∅ false (make_chan 10) None [] [].

(** The store [OpenDB] returns on a new file. *)
Definition new_db : bolt.DB :=
  bolt.mkDB true {[ storage.bucketKey := ∅ ]}.

(** A store that is open and whose bucket holds the keys of [b]. *)
Definition holds (db : bolt.DB) (b : bolt.Bucket) : Prop :=
  bolt.opened db = true /\ bolt.buckets db !! storage.bucketKey = Some b.

(** The store after [IsNew] has recorded the key of (spn, fmi) in [b]. *)
Definition record (spn fmi : Z) (db : bolt.DB) (b : bolt.Bucket) : bolt.DB :=
  bolt.mkDB true (<[storage.bucketKey := <[storage.key spn fmi := [x01]]> b]> (bolt.buckets db)).

(** [n] sightings of one key in a row: the answers of [IsNew]. *)
Fixpoint sightings (n : nat) (db : bolt.DB) (spn fmi : Z) : outcome (bolt.DB * list bool) :=
  match n with
  | O => Ret (db, [])
  | S n =>
      '(db, isNew, _) ← storage.IsNew db spn fmi;
      '(db, rest) ← sightings n db spn fmi;
      Ret (db, isNew :: rest)
  end.

(** A J1587 bus as [NewBus] and [StartReading] leave it. *)
Definition running_bus : j1587.Bus :=
  j1587.mkBus (Some (j1587.mkPort [] true)) ∅ true (make_chan 10) (Some new_db) [] [].

(** A frame processor as the J1939 agent creates it, over store [d]. *)
Definition new_processor (d : option bolt.DB) : j1939.FrameProcessor :=
  j1939.mkFP ∅ (make_chan 10) d [] [].

(** Ten records, filling a DTC channel. *)
Definition ten_dtcs : list DTCCode := replicate 10 (mkDTC 0 0 0 0 0 0).

(** The EEC1 and DM1 payloads of the scenarios of the specification. *)
Definition eec1_payload : list byte := bytes [0xFF; 0xFF; 0xFF; 0x10; 0x27; 0xFF; 0xFF; 0xFF].

Definition dm1_payload : list byte := bytes [0x00; 0x00; 0x01; 0x02; 0x43; 0x05].

(** A run of [Set] calls on one table, in order. *)
Fixpoint Sets (p : pd.ProtectedData) (kvs : list (string * any)) (h : pd.heap) : outcome pd.heap :=
  match kvs with
  | [] => Ret h
  | (key, value) :: kvs => h ← pd.Set_ p key value h; Sets p kvs h
  end.

End obs.

(** ** The J1939 agent: the bus (socket and stop signal)

    [stopChan] is [None] for a nil channel, otherwise whether the
    channel has been closed; [sent] lists the datagrams handed to
    [unix.Sendto] with success.  The results of the system calls
    [unix.Close] and [unix.Sendto] are arguments. *)

Module j1939bus.

Inductive SendError : Type :=
| ErrSocketClosed
| ErrTooLong (n : Z)
| ErrSendto (e : error).

Inductive BusLog : Type :=
| LogStopping
| LogStopAlreadyClosed
| LogStopClosed
| LogStopNilChan
| LogSocketClosing (fd : Z)
| LogSocketCloseError (fd : Z) (e : error)
| LogSocketClosed (fd : Z)
| LogSocketAlreadyClosed
| LogStopped
| LogSending (pgn : Z) (data : list byte) (destAddr : Z)
| LogSentCommand (pgn : Z) (destAddr : Z).

Record Bus : Type := mkBus {
  fd : Z;
  stopChan : option bool;
  sent : list (Z * list byte * Z);
  logs : list BusLog
}.

Definition log (m : BusLog) (p : Bus) : Bus :=
  mkBus (fd p) (stopChan p) (sent p) (logs p ++ [m]).

(** [close(p.stopChan)]: closing a closed channel panics. *)
Definition close_stopChan (p : Bus) : outcome Bus :=
  match stopChan p with
  | Some false => Ret (mkBus (fd p) (Some true) (sent p) (logs p))
  | _ => Panic
  end.

Definition Stop (close_err : option error) (p : Bus) : outcome Bus :=
  let p := log LogStopping p in
  p ← match stopChan p with
      | Some closed =>
          if closed then Ret (log LogStopAlreadyClosed p)     (* case <-p.stopChan *)
          else p ← close_stopChan p; Ret (log LogStopClosed p)
      | None => Ret (log LogStopNilChan p)
      end;
  let p :=
    if negb (fd p =? -1) then
      let p := log (LogSocketClosing (fd p)) p in
      let p := match close_err with
               | Some e => log (LogSocketCloseError (fd p) e) p
               | None => log (LogSocketClosed (fd p)) p
               end in
      mkBus (-1) (stopChan p) (sent p) (logs p)
    else log LogSocketAlreadyClosed p in
  Ret (log LogStopped p).

Definition SendCommand (pgn : Z) (data : list byte) (destAddr : Z) (send_err : option error)
    (p : Bus) : Bus * option SendError :=
  if fd p =? -1 then (p, Some ErrSocketClosed)
  else if len data >? 8 then (p, Some (ErrTooLong (len data)))
  else
    let p := log (LogSending pgn data destAddr) p in
    match send_err with
    | Some e => (p, Some (ErrSendto e))
    | None =>
        let p := mkBus (fd p) (stopChan p) (sent p ++ [(pgn, data, destAddr)]) (logs p) in
        (log (LogSentCommand pgn destAddr) p, None)
    end.

End j1939bus.


(** ** Further notions used in the statements *)

Module aux.

(** A string without the separator of the store's keys. *)
Fixpoint no_colon (s : string) : Prop :=
  match s with
  | EmptyString => True
  | String c s => c <> ":"%char /\ no_colon s
  end.

(** What a J1587 decoder may do to a bus besides writing metrics: the
    port, the store and the running flag stay, the log and the DTC
    channel only grow, and the channel stays within its capacity. *)
Definition extends (p p' : j1587.Bus) : Prop :=
  j1587.port p' = j1587.port p
  /\ j1587.db p' = j1587.db p
  /\ j1587.isRunning p' = j1587.isRunning p
  /\ cap (j1587.dtcChan p') = cap (j1587.dtcChan p)
  /\ buf (j1587.dtcChan p) `prefix_of` buf (j1587.dtcChan p')
  /\ j1587.logs p `prefix_of` j1587.logs p'
  /\ ((length (buf (j1587.dtcChan p)) <= cap (j1587.dtcChan p))%nat ->
      (length (buf (j1587.dtcChan p')) <= cap (j1587.dtcChan p'))%nat).

(** A record of a J1939 diagnostic message from source address [sa],
    with its fields inside their bit widths. *)
Definition dm_record (sa : Z) (d : DTCCode) : Prop :=
  MID d = sa /\ PID d = 0
  /\ 0 <= SPN d < 2 ^ 19 /\ 0 <= FMI d < 32 /\ 0 <= OC d < 128.

End aux.

(** * Properties *)

(** ** Bytes *)

Lemma b2z_range (b : byte) : 0 <= b2z b < 256.
Proof.
  unfold b2z. pose proof (Byte.to_N_bounded b). lia.
Qed.

Lemma b2z_z2b (n : Z) : b2z (z2b n) = n mod 256.
Proof.
  unfold b2z, z2b.
  pose proof (Z.mod_pos_bound n 256 ltac:(lia)) as Hn.
  destruct (Byte.of_N (Z.to_N (n mod 256))) as [b|] eqn:E.
  - apply Byte.to_of_N in E. simpl. rewrite E. lia.
  - apply Byte.of_N_None_iff in E. lia.
Qed.

Lemma z2b_b2z (b : byte) : z2b (b2z b) = b.
Proof.
  unfold z2b, b2z. pose proof (Byte.to_N_bounded b).
  rewrite Z.mod_small by lia.
  rewrite N2Z.id, Byte.of_to_N. reflexivity.
Qed.

Lemma len_nonneg {A} (l : list A) : 0 <= len l.
Proof. unfold len. lia. Qed.

Lemma len_cons {A} (x : A) (l : list A) : len (x :: l) = len l + 1.
Proof. unfold len. simpl. lia. Qed.

Lemma len_app {A} (l k : list A) : len (l ++ k) = len l + len k.
Proof. unfold len. rewrite length_app. lia. Qed.

Lemma index_in_range {A} (s : list A) (i : Z) :
  0 <= i < len s -> exists x, index s i = Ret x /\ s !! Z.to_nat i = Some x.
Proof.
  intros Hi. unfold index, len in *.
  destruct (s !! Z.to_nat i) as [x|] eqn:E.
  - exists x. split; [|reflexivity].
    replace ((0 <=? i) && (i <? Z.of_nat (length s))) with true by (symmetry; apply andb_true_iff; lia).
    simpl. reflexivity.
  - apply lookup_ge_None in E. lia.
Qed.

Lemma slice_in_range {A} (s : list A) (lo hi : Z) :
  0 <= lo <= hi -> hi <= len s ->
  slice s lo hi = Ret (take (Z.to_nat (hi - lo)) (drop (Z.to_nat lo) s)).
Proof.
  intros H1 H2. unfold slice.
  replace ((0 <=? lo) && (lo <=? hi) && (hi <=? len s)) with true
    by (symmetry; rewrite !andb_true_iff; lia).
  reflexivity.
Qed.

(** ** J1587: checksum and frame layout *)

Section J1587_checksum.
Import j1587.

Lemma byte_sum_from (frame : list byte) (a : Z) :
  fold_left (fun sum b => sum + b2z b) frame a = a + byte_sum frame.
Proof.
  unfold byte_sum. revert a.
  induction frame as [|b frame IH]; intros a; simpl; [lia|].
  rewrite (IH (a + b2z b)), (IH (0 + b2z b)). lia.
Qed.

Lemma byte_sum_app (f g : list byte) : byte_sum (f ++ g) = byte_sum f + byte_sum g.
Proof.
  unfold byte_sum at 1. rewrite fold_left_app.
  fold (byte_sum f). rewrite byte_sum_from. reflexivity.
Qed.

Lemma byte_sum_nonneg (f : list byte) : 0 <= byte_sum f.
Proof.
  induction f as [|b f IH]; [unfold byte_sum; simpl; lia|].
  change (b :: f) with ([b] ++ f). rewrite byte_sum_app.
  pose proof (b2z_range b). unfold byte_sum at 1. simpl. lia.
Qed.

(** Appending the checksum makes the byte sum a multiple of 256. *)
Lemma checksum_closes (frame : list byte) :
  Z.rem (byte_sum (frame ++ [calculateJ1587Checksum frame])) 256 = 0.
Proof.
  pose proof (byte_sum_nonneg frame) as Hf.
  pose proof (byte_sum_nonneg (frame ++ [calculateJ1587Checksum frame])) as Hg.
  rewrite Z.rem_mod_nonneg by lia.
  rewrite byte_sum_app.
  assert (Hone : forall c, byte_sum [c] = b2z c) by (intros c; unfold byte_sum; simpl; lia).
  rewrite Hone. unfold calculateJ1587Checksum. rewrite b2z_z2b.
  rewrite Z.rem_mod_nonneg by lia.
  set (s := byte_sum frame).
  rewrite Z.add_mod_idemp_r by lia.
  replace (s + (256 - s mod 256)) with ((s - s mod 256) + 1 * 256) by lia.
  rewrite Z.mod_add by lia.
  rewrite Zminus_mod_idemp_r, Z.sub_diag. reflexivity.
Qed.

Lemma frameWithChecksum_len (mid pid : byte) (data : list byte) :
  len (frameWithChecksum mid pid data) = len data + 3.
Proof. unfold frameWithChecksum. rewrite !len_app. unfold len. simpl. lia. Qed.

Lemma frameWithChecksum_valid (mid pid : byte) (data : list byte) :
  validateJ1587Checksum (frameWithChecksum mid pid data) = true.
Proof.
  unfold validateJ1587Checksum. rewrite frameWithChecksum_len.
  unfold frameWithChecksum. rewrite checksum_closes.
  pose proof (len_nonneg data).
  destruct (Z.ltb_spec (len data + 3) 3); [lia|reflexivity].
Qed.

(** On a running bus with a working port, [SendFrame] writes exactly
    [frameWithChecksum]. *)
Lemma SendFrame_writes (mid pid : byte) (data : list byte) (p : Bus) (q : Port) :
  port p = Some q -> isRunning p = true -> healthy q = true ->
  exists p', SendFrame mid pid data p = (p', None)
             /\ (wire <$> port p') = Some (wire q ++ [frameWithChecksum mid pid data]).
Proof.
intros Hq Hr Hh. unfold SendFrame, Write. rewrite Hq, Hr. simpl. rewrite Hh.
eexists. split; reflexivity.
Qed.

(** [parseFrame] splits a frame built by [SendFrame] into the MID and
    the bytes between MID and checksum, and walks the latter. *)
Lemma parseFrame_built (mid pid : byte) (data : list byte) (p : Bus) :
  parseFrame (frameWithChecksum mid pid data) p =
  walk (length (pid :: data)) (b2z mid) (pid :: data) 0
       (log (LogParsing (b2z mid) (pid :: data)) p).
Proof.
  unfold parseFrame. rewrite frameWithChecksum_valid, frameWithChecksum_len.
  pose proof (len_nonneg data) as Hd.
  destruct (Z.ltb_spec (len data + 3) 3); [lia|]. simpl negb. cbv iota.
  destruct (index_in_range (frameWithChecksum mid pid data) 0) as (m & Hm & Hm').
  { rewrite frameWithChecksum_len. lia. }
  rewrite Hm. simpl in Hm'. injection Hm' as <-.
  rewrite slice_in_range by (rewrite ?frameWithChecksum_len; lia).
  replace (Z.to_nat (len data + 3 - 1 - 1)) with (length (pid :: data))
    by (unfold len; simpl; lia).
  unfold frameWithChecksum.
  set (cs := calculateJ1587Checksum _).
  change (drop (Z.to_nat 1) (([mid] ++ [pid] ++ data) ++ [cs])) with ((pid :: data) ++ [cs]).
  rewrite take_app_length. reflexivity.
Qed.

End J1587_checksum.

Lemma len_nil {A} : len (@nil A) = 0.
Proof. reflexivity. Qed.

Create Rewrite HintDb len.
#[global] Hint Rewrite @len_app @len_cons @len_nil : len.

Ltac len_lia := autorewrite with len in *; lia.

(** ** J1587: the PID/data walk *)

Section J1587_walk.
Import j1587 obs.

Lemma index_app_len {A} (pre : list A) (x : A) (rest : list A) :
  index (pre ++ x :: rest) (len pre) = Ret x.
Proof.
  destruct (index_in_range (pre ++ x :: rest) (len pre)) as (y & Hy & Hy').
  { rewrite len_app, len_cons. pose proof (len_nonneg pre). pose proof (len_nonneg rest). lia. }
  rewrite Hy. unfold len in Hy'. rewrite Nat2Z.id in Hy'.
  rewrite list_lookup_middle in Hy' by reflexivity. congruence.
Qed.

Lemma index_app_len1 {A} (pre : list A) (x y : A) (rest : list A) :
  index (pre ++ x :: y :: rest) (len pre + 1) = Ret y.
Proof.
  replace (pre ++ x :: y :: rest) with ((pre ++ [x]) ++ y :: rest)
    by (rewrite <- app_assoc; reflexivity).
  replace (len pre + 1) with (len (pre ++ [x])) by (rewrite len_app; reflexivity).
  apply index_app_len.
Qed.

Lemma slice_app_mid {A} (pre block rest : list A) :
  slice (pre ++ block ++ rest) (len pre) (len pre + len block) = Ret block.
Proof.
  pose proof (len_nonneg pre). pose proof (len_nonneg block). pose proof (len_nonneg rest).
  rewrite slice_in_range by (rewrite ?len_app; lia).
  replace (Z.to_nat (len pre + len block - len pre)) with (length block) by (unfold len; lia).
  unfold len at 1. rewrite Nat2Z.id, drop_app_length, take_app_length. reflexivity.
Qed.

Lemma walk_S (fuel : nat) (mid : Z) (data : list byte) (offset : Z) (p : Bus) :
  walk (S fuel) mid data offset p =
  if offset <? len data then
    pid ← index data offset;
    '(dataLength, err) ← getPIDDataLength pid data (offset + 1);
    match err with
    | Some e => Ret (log (LogLengthError pid e) p)
    | None =>
        let variable := (192 <=? b2z pid) && (b2z pid <=? 253) in
        if variable && (offset + 1 >=? len data) then
          Ret (log (LogNoLengthByte pid) p)
        else
          '(dataLength, offset') ←
            (if variable then
               l ← index data (offset + 1);
               Ret (b2z l, offset + 1 + 1)
             else Ret (dataLength, offset + 1));
          if offset' + dataLength >? len data then
            Ret (log (LogShortData pid dataLength (len data - offset')) p)
          else
            paramData ← slice data offset' (offset' + dataLength);
            walk fuel mid data (offset' + dataLength)
              (processPIDData mid (b2z pid) paramData
                 (log (LogProcessing pid paramData) p))
    end
  else Ret p.
Proof. reflexivity. Qed.

Lemma getPIDDataLength_fixed pid data offset n :
  fixed_length pid = Some n -> 
  getPIDDataLength pid data offset = Ret (n, None)
  /\ (192 <=? b2z pid) && (b2z pid <=? 253) = false.
Proof.
  unfold fixed_length, getPIDDataLength. pose proof (b2z_range pid).
  destruct (Z.leb_spec (b2z pid) 127).
  - intros [= <-]. destruct (Z.leb_spec 0 (b2z pid)); [|lia]. simpl. split; [reflexivity|].
    destruct (Z.leb_spec 192 (b2z pid)); [lia|reflexivity].
  - destruct (Z.leb_spec (b2z pid) 191); [|discriminate]. intros [= <-].
    rewrite andb_false_r. destruct (Z.leb_spec 128 (b2z pid)); [|lia]. simpl. split; [reflexivity|].
    destruct (Z.leb_spec 192 (b2z pid)); [lia|reflexivity].
Qed.

Lemma walk_fixed_block fuel mid pre pid block rest p :
  fixed_length pid = Some (len block) ->
  walk (S fuel) mid (pre ++ pid :: block ++ rest) (len pre) p =
  walk fuel mid (pre ++ pid :: block ++ rest) (len pre + 1 + len block)
    (processPIDData mid (b2z pid) block (log (LogProcessing pid block) p)).
Proof.
  intros Hfix. rewrite walk_S.
  pose proof (len_nonneg pre). pose proof (len_nonneg block). pose proof (len_nonneg rest).
  destruct (Z.ltb_spec (len pre) (len (pre ++ pid :: block ++ rest))) as [_|Hge];
    [|len_lia].
  rewrite index_app_len. cbn [mbind outcome_bind].
  destruct (getPIDDataLength_fixed pid (pre ++ pid :: block ++ rest) (len pre + 1) _ Hfix) as [-> ->].
  cbn [mbind outcome_bind andb].
  destruct (Z.gtb_spec (len pre + 1 + len block) (len (pre ++ pid :: block ++ rest))) as [Hgt|_];
    [len_lia|].
  replace (pre ++ pid :: block ++ rest) with ((pre ++ [pid]) ++ block ++ rest) at 1
    by (rewrite <- app_assoc; reflexivity).
  replace (len pre + 1) with (len (pre ++ [pid])) at 1 2 by (rewrite len_app; reflexivity).
  rewrite slice_app_mid. reflexivity.
Qed.

Lemma getPIDDataLength_variable pid pre l rest :
  192 <= b2z pid <= 253 ->
  getPIDDataLength pid (pre ++ pid :: l :: rest) (len pre + 1) = Ret (b2z l, None)
  /\ (192 <=? b2z pid) && (b2z pid <=? 253) = true.
Proof.
  intros Hp. unfold getPIDDataLength.
  pose proof (len_nonneg pre). pose proof (len_nonneg rest).
  destruct (Z.leb_spec (b2z pid) 127); [lia|]. rewrite andb_false_r.
  destruct (Z.leb_spec (b2z pid) 191); [lia|]. rewrite andb_false_r.
  destruct (Z.leb_spec 192 (b2z pid)); [|lia].
  destruct (Z.leb_spec (b2z pid) 253); [|lia]. simpl andb. cbv iota.
  destruct (Z.geb_spec (len pre + 1) (len (pre ++ pid :: l :: rest))); [len_lia|].
  rewrite index_app_len1. split; reflexivity.
Qed.

Lemma walk_variable_block fuel mid pre pid l block rest p :
  192 <= b2z pid <= 253 ->
  b2z l = len block ->
  walk (S fuel) mid (pre ++ pid :: l :: block ++ rest) (len pre) p =
  walk fuel mid (pre ++ pid :: l :: block ++ rest) (len pre + 2 + len block)
    (processPIDData mid (b2z pid) block (log (LogProcessing pid block) p)).
Proof.
  intros Hp Hl. rewrite walk_S.
  pose proof (len_nonneg pre). pose proof (len_nonneg block). pose proof (len_nonneg rest).
  set (data := pre ++ pid :: l :: block ++ rest).
  assert (Hlen : len data = len pre + 2 + len block + len rest) by (subst data; len_lia).
  destruct (Z.ltb_spec (len pre) (len data)); [|lia].
  subst data. rewrite index_app_len. cbn [mbind outcome_bind].
  destruct (getPIDDataLength_variable pid pre l (block ++ rest) Hp) as [-> ->].
  cbn [mbind outcome_bind andb].
  destruct (Z.geb_spec (len pre + 1) (len (pre ++ pid :: l :: block ++ rest))); [lia|].
  cbv iota. rewrite index_app_len1. cbn [mbind outcome_bind].
  rewrite Hl.
  destruct (Z.gtb_spec (len pre + 1 + 1 + len block) (len (pre ++ pid :: l :: block ++ rest))); [lia|].
  replace (pre ++ pid :: l :: block ++ rest) with ((pre ++ [pid; l]) ++ block ++ rest) at 1
    by (rewrite <- app_assoc; reflexivity).
  replace (len pre + 1 + 1) with (len (pre ++ [pid; l])) at 1 2 by len_lia.
  rewrite slice_app_mid. cbn [mbind outcome_bind].
  replace (len pre + 1 + 1 + len block) with (len pre + 2 + len block) by lia.
  reflexivity.
Qed.

Lemma walk_variable_overrun fuel mid pre pid l rest p :
  192 <= b2z pid <= 253 ->
  len rest < b2z l ->
  walk (S fuel) mid (pre ++ pid :: l :: rest) (len pre) p =
  Ret (log (LogShortData pid (b2z l) (len rest)) p).
Proof.
  intros Hp Hl. rewrite walk_S.
  pose proof (len_nonneg pre). pose proof (len_nonneg rest).
  set (data := pre ++ pid :: l :: rest).
  assert (Hlen : len data = len pre + 2 + len rest) by (subst data; len_lia).
  destruct (Z.ltb_spec (len pre) (len data)); [|lia].
  subst data. rewrite index_app_len. cbn [mbind outcome_bind].
  destruct (getPIDDataLength_variable pid pre l rest Hp) as [-> ->].
  cbn [mbind outcome_bind andb].
  destruct (Z.geb_spec (len pre + 1) (len (pre ++ pid :: l :: rest))); [lia|].
  cbv iota. rewrite index_app_len1. cbn [mbind outcome_bind].
  destruct (Z.gtb_spec (len pre + 1 + 1 + b2z l) (len (pre ++ pid :: l :: rest))); [|lia].
  do 3 f_equal. lia.
Qed.

Lemma getPIDDataLength_total pid data offset :
  0 <= offset ->
  exists n err, getPIDDataLength pid data offset = Ret (n, err) /\ 0 <= n.
Proof.
  intros Ho. unfold getPIDDataLength.
  destruct ((0 <=? b2z pid) && (b2z pid <=? 127)); [exists 1, None; split; [reflexivity|lia]|].
  destruct ((128 <=? b2z pid) && (b2z pid <=? 191)); [exists 2, None; split; [reflexivity|lia]|].
  destruct ((192 <=? b2z pid) && (b2z pid <=? 253)); [|eexists 0, _; split; [reflexivity|lia]].
  destruct (Z.geb_spec offset (len data)); [eexists 0, _; split; [reflexivity|lia]|].
  destruct (index_in_range data offset) as (x & -> & _); [lia|].
  exists (b2z x), None. split; [reflexivity|]. apply b2z_range.
Qed.

(** With [len data - offset] turns of fuel the walk returns: it
    neither panics on an access nor runs out of fuel. *)
Lemma walk_total (fuel : nat) : forall mid data offset p,
  0 <= offset -> len data - offset <= Z.of_nat fuel ->
  exists p', walk fuel mid data offset p = Ret p'.
Proof.
  induction fuel as [|fuel IH]; intros mid data offset p Ho Hf.
  - simpl. destruct (Z.ltb_spec offset (len data)); [lia|]. eauto.
  - rewrite walk_S.
    destruct (Z.ltb_spec offset (len data)); [|eauto].
    destruct (index_in_range data offset) as (pid & -> & _); [lia|].
    cbn [mbind outcome_bind].
    destruct (getPIDDataLength_total pid data (offset + 1)) as (n & err & -> & Hn); [lia|].
    cbn [mbind outcome_bind].
    destruct err; [eauto|].
    destruct ((192 <=? b2z pid) && (b2z pid <=? 253)); cbn [andb].
    + destruct (Z.geb_spec (offset + 1) (len data)); [eauto|].
      destruct (index_in_range data (offset + 1)) as (l & -> & _); [lia|].
      cbn [mbind outcome_bind]. pose proof (b2z_range l).
      destruct (Z.gtb_spec (offset + 1 + 1 + b2z l) (len data)); [eauto|].
      rewrite slice_in_range by lia. cbn [mbind outcome_bind].
      apply IH; lia.
    + cbn [mbind outcome_bind].
      destruct (Z.gtb_spec (offset + 1 + n) (len data)); [eauto|].
      rewrite slice_in_range by lia. cbn [mbind outcome_bind].
      apply IH; lia.
Qed.

Lemma parseFrame_total (frame : list byte) (p : Bus) :
  exists p', parseFrame frame p = Ret p'.
Proof.
  unfold parseFrame.
  destruct (Z.ltb_spec (len frame) 3); [eauto|].
  destruct (validateJ1587Checksum frame); [|eauto]. simpl negb. cbv iota.
  destruct (index_in_range frame 0) as (m & -> & _); [lia|].
  cbn [mbind outcome_bind].
  rewrite slice_in_range by lia. cbn [mbind outcome_bind].
  apply walk_total; [lia|]. unfold len. lia.
Qed.

Lemma walk_at_end (fuel : nat) (mid : Z) (data : list byte) (offset : Z) (p : Bus) :
  len data <= offset -> walk fuel mid data offset p = Ret p.
Proof.
  intros H. destruct fuel; simpl;
    destruct (Z.ltb_spec offset (len data)); (lia || reflexivity).
Qed.

End J1587_walk.

Section J1587_claims.
Import j1587 obs.

(** C1 (as amended).  For every MID, PID and data bytes, the frame
    [SendFrame] builds with [calculateJ1587Checksum] is accepted by
    [validateJ1587Checksum]; [parseFrame] reads the MID from its first
    byte and walks exactly the PID followed by the data bytes; and
    when the data length is the one the range table fixes for the PID
    (1 byte for PID 0-127, 2 bytes for PID 128-191) the walk hands
    the original MID, PID and data, as one block, to [processPIDData]
    and ends. *)
Theorem checksum_round_trip (mid pid : byte) (data : list byte) (p : Bus) :
  validateJ1587Checksum (frameWithChecksum mid pid data) = true
  /\ parseFrame (frameWithChecksum mid pid data) p =
     walk (length (pid :: data)) (b2z mid) (pid :: data) 0
          (log (LogParsing (b2z mid) (pid :: data)) p)
  /\ (fixed_length pid = Some (len data) ->
      parseFrame (frameWithChecksum mid pid data) p =
      Ret (processPIDData (b2z mid) (b2z pid) data
             (log (LogProcessing pid data)
                (log (LogParsing (b2z mid) (pid :: data)) p)))).
Proof.
  split; [apply frameWithChecksum_valid|].
  split; [apply parseFrame_built|].
  intros Hfix. rewrite parseFrame_built.
  pose proof (walk_fixed_block (length data) (b2z mid) [] pid data []
                (log (LogParsing (b2z mid) (pid :: data)) p)) as Hstep.
  rewrite app_nil_r in Hstep. simpl app in Hstep.
  change (length (pid :: data)) with (S (length data)).
  change 0 with (len (@nil byte)) at 1.
  rewrite Hstep by exact Hfix.
  apply walk_at_end. autorewrite with len. lia.
Qed.

(** The Speed scenario of the specification: MID 128, PID 84, one
    data byte 0x32 give [Speed = 50]. *)
Lemma checksum_round_trip_witness :
  fixed_length (z2b 84) = Some (len (bytes [0x32]))
  /\ exists p', parseFrame (frameWithChecksum (z2b 128) (z2b 84) (bytes [0x32])) idle_bus = Ret p'
                /\ data p' !! "Speed" = Some (AFloat 50).
Proof.
  split; [reflexivity|].
  eexists. split.
  - apply (proj2 (proj2 (checksum_round_trip (z2b 128) (z2b 84) (bytes [0x32]) idle_bus))).
    reflexivity.
  - reflexivity.
Defined.

(** C1 as stated fails: for PID 84 with the two data bytes 01 02 the
    frame is valid, but the walk hands [processPIDData] the block
    (84, 01) and stops at the stray byte; the data bytes are not
    recovered. *)
Lemma checksum_round_trip_counterexample :
  let frame := frameWithChecksum (z2b 128) (z2b 84) (bytes [1; 2]) in
  validateJ1587Checksum frame = true
  /\ exists p', parseFrame frame idle_bus = Ret p'
                /\ blocks (logs p') = [(z2b 84, bytes [1])]
                /\ blocks (logs p') <> [(z2b 84, bytes [1; 2])].
Proof.
  split; [reflexivity|].
  eexists. split; [reflexivity|].
  split; [reflexivity|].
  vm_compute. discriminate.
Qed.

(** C5.  In the PID/data walk, a PID in 192-253 whose length byte is 0
    gives [processPIDData] an empty data block and the walk goes on
    at the byte right after the length byte; a length byte larger
    than the number of bytes left ends the walk with no block
    processed; and [parseFrame] returns on every frame: no access out
    of bounds, no fuel exhausted. *)
Theorem variable_length_pid_boundary :
  (forall fuel mid pre pid rest p,
      192 <= b2z pid <= 253 ->
      walk (S fuel) mid (pre ++ pid :: z2b 0 :: rest) (len pre) p =
      walk fuel mid (pre ++ pid :: z2b 0 :: rest) (len pre + 2)
           (processPIDData mid (b2z pid) [] (log (LogProcessing pid []) p)))
  /\ (forall fuel mid pre pid l rest p,
      192 <= b2z pid <= 253 ->
      len rest < b2z l ->
      walk (S fuel) mid (pre ++ pid :: l :: rest) (len pre) p =
      Ret (log (LogShortData pid (b2z l) (len rest)) p))
  /\ (forall frame p, exists p', parseFrame frame p = Ret p').
Proof.
  split; [|split].
  - intros fuel mid pre pid rest p Hp.
    pose proof (walk_variable_block fuel mid pre pid (z2b 0) [] rest p Hp eq_refl) as H.
    simpl app in H. rewrite H. f_equal. autorewrite with len. lia.
  - apply walk_variable_overrun.
  - apply parseFrame_total.
Qed.

(** PID 200 with length 0 followed by a Speed block: the empty block
    is processed and the walk goes on at PID 84; PID 200 announcing 9
    bytes with 2 left ends the walk. *)
Lemma variable_length_pid_boundary_witness :
  walk 3 128 (bytes [200; 0; 84; 7]) 0 idle_bus =
    walk 2 128 (bytes [200; 0; 84; 7]) 2
      (processPIDData 128 200 [] (log (LogProcessing (z2b 200) []) idle_bus))
  /\ walk 3 128 (bytes [200; 9; 84; 7]) 0 idle_bus =
     Ret (log (LogShortData (z2b 200) 9 2) idle_bus).
Proof.
  split.
  - apply (proj1 variable_length_pid_boundary 2%nat 128 [] (z2b 200) (bytes [84; 7]) idle_bus).
    vm_compute. split; discriminate.
  - apply (proj1 (proj2 variable_length_pid_boundary) 2%nat 128 [] (z2b 200) (z2b 9)
                 (bytes [84; 7]) idle_bus).
    + vm_compute. split; discriminate.
    + reflexivity.
Defined.

End J1587_claims.


(** ** The deduplication store *)

Section Storage.
Import storage obs.

Lemma key_nonempty (spn fmi : Z) : key spn fmi <> "".
Proof.
unfold key. destruct (pretty spn); simpl; discriminate.
Qed.

Lemma DB_eta (db : bolt.DB) : bolt.opened db = true -> bolt.mkDB true (bolt.buckets db) = db.
Proof. destruct db as [o t]. simpl. intros ->. reflexivity. Qed.

Lemma OpenDB_new : OpenDB ∅ = Ret (new_db, None).
Proof. reflexivity. Qed.

Lemma IsNew_first (db : bolt.DB) (b : bolt.Bucket) (spn fmi : Z) :
  holds db b -> b !! key spn fmi = None ->
  IsNew db spn fmi = Ret (record spn fmi db b, true, None).
Proof.
intros [Ho Hb] Hk. unfold IsNew, bolt.Update. rewrite Ho.
unfold bolt.TxBucket. rewrite Hb. simpl.
unfold bolt.Get. rewrite Hk. unfold bolt.Put.
destruct (decide (key spn fmi = "")) as [E|_]; [destruct (key_nonempty _ _ E)|].
reflexivity.
Qed.

Lemma IsNew_seen (db : bolt.DB) (b : bolt.Bucket) (spn fmi : Z) :
  holds db b -> is_Some (b !! key spn fmi) ->
  IsNew db spn fmi = Ret (db, false, None).
Proof.
intros [Ho Hb] [v Hk]. unfold IsNew, bolt.Update. rewrite Ho.
unfold bolt.TxBucket. rewrite Hb. simpl.
unfold bolt.Get. rewrite Hk. simpl. rewrite DB_eta by exact Ho. reflexivity.
Qed.

Lemma record_holds (db : bolt.DB) (b : bolt.Bucket) (spn fmi : Z) :
  holds (record spn fmi db b) (<[key spn fmi := [x01]]> b).
Proof. split; [reflexivity|]. simpl. apply lookup_insert_eq. Qed.

Lemma Remove_holds (db : bolt.DB) (b : bolt.Bucket) (spn fmi : Z) :
  holds db b ->
  exists db', Remove db spn fmi = Ret (db', None) /\ holds db' (delete (key spn fmi) b).
Proof.
intros [Ho Hb]. unfold Remove, bolt.Update. rewrite Ho.
unfold bolt.TxBucket. rewrite Hb. simpl.
eexists. split; [reflexivity|]. split; [reflexivity|]. simpl. apply lookup_insert_eq.
Qed.

Lemma ClearAll_drops_bucket (db : bolt.DB) :
  bolt.opened db = true ->
  exists db' err, ClearAll db = Ret (db', err)
                  /\ bolt.opened db' = true /\ bolt.buckets db' !! bucketKey = None.
Proof.
intros Ho. unfold ClearAll, bolt.Update, bolt.DeleteBucket. rewrite Ho.
destruct (bolt.buckets db !! bucketKey) as [b|] eqn:Hb; simpl.
- eexists _, _. split; [reflexivity|]. split; [reflexivity|]. simpl. apply lookup_delete_eq.
- eexists _, _. split; [reflexivity|]. split; [exact Ho|exact Hb].
Qed.

Lemma IsNew_no_bucket (db : bolt.DB) (spn fmi : Z) :
  bolt.opened db = true -> bolt.buckets db !! bucketKey = None ->
  IsNew db spn fmi = Panic.
Proof.
intros Ho Hb. unfold IsNew, bolt.Update. rewrite Ho.
unfold bolt.TxBucket. rewrite Hb. reflexivity.
Qed.

Lemma IsNew_closed (db : bolt.DB) (spn fmi : Z) :
  bolt.opened db = false ->
  IsNew db spn fmi = Ret (db, false, Some ErrDatabaseNotOpen).
Proof. intros Ho. unfold IsNew, bolt.Update. rewrite Ho. reflexivity. Qed.

Lemma sightings_seen (n : nat) (db : bolt.DB) (b : bolt.Bucket) (spn fmi : Z) :
  holds db b -> is_Some (b !! key spn fmi) ->
  sightings n db spn fmi = Ret (db, replicate n false).
Proof.
intros Hh Hk. induction n as [|n IH]; [reflexivity|].
simpl. rewrite (IsNew_seen db b) by assumption. simpl. rewrite IH. reflexivity.
Qed.

(** The first of [n] sightings of an unseen key is new, the others are
    not. *)
Lemma sightings_new (n : nat) (db : bolt.DB) (b : bolt.Bucket) (spn fmi : Z) :
  holds db b -> b !! key spn fmi = None ->
  sightings (S n) db spn fmi = Ret (record spn fmi db b, true :: replicate n false).
Proof.
intros Hh Hk. simpl. rewrite (IsNew_first db b) by assumption. simpl.
rewrite (sightings_seen n _ _ _ _ (record_holds db b spn fmi)).
- reflexivity.
- rewrite lookup_insert_eq. eauto.
Qed.

Lemma IsNew_after_Remove (db : bolt.DB) (b : bolt.Bucket) (spn fmi : Z) :
  holds db b ->
  exists db' db'', Remove db spn fmi = Ret (db', None)
                   /\ IsNew db' spn fmi = Ret (db'', true, None).
Proof.
intros Hh. destruct (Remove_holds db b spn fmi Hh) as (db' & HR & Hh').
eexists db', _. split; [exact HR|].
apply (IsNew_first db' _ spn fmi Hh'). apply lookup_delete_eq.
Qed.

(** C2, at the failing input: after [ClearAll] the next [IsNew] does
    not answer true.  [ClearAll] deletes the bucket itself, nothing
    creates it again, and [IsNew] calls [Get] on the nil bucket. *)
Theorem IsNew_after_ClearAll (db : bolt.DB) (spn fmi : Z) :
  bolt.opened db = true ->
  ('(db', _) ← ClearAll db; IsNew db' spn fmi) = Panic.
Proof.
intros Ho. destruct (ClearAll_drops_bucket db Ho) as (db' & err & -> & Ho' & Hb').
simpl. apply IsNew_no_bucket; assumption.
Qed.

Lemma IsNew_after_ClearAll_witness :
  sightings 3 new_db 7 2 = Ret (record 7 2 new_db ∅, [true; false; false])
  /\ ('(db', _) ← ClearAll (record 7 2 new_db ∅); IsNew db' 7 2) = Panic.
Proof.
split.
- apply (sightings_new 2 new_db ∅ 7 2); [split; reflexivity | reflexivity].
- apply (IsNew_after_ClearAll (record 7 2 new_db ∅) 7 2). reflexivity.
Defined.
End Storage.


(** ** J1587: decoding, DTC forwarding and commands *)

Section J1587_processing.
Import j1587 obs.

Lemma processPIDData_rpm (mid : Z) (b0 b1 : byte) (rest : list byte) (p : Bus) :
  processPIDData mid PID_ENGINE_RPM (b0 :: b1 :: rest) p =
  Set_ "EngineRPM" (AFloat (float64 (Z.quot (b2z b0 * 256 + b2z b1) 8))) p.
Proof. reflexivity. Qed.

Lemma float_1_125_not_1 : AFloat 1.125 <> AFloat 1.
Proof.
intros H.
assert (E : match AFloat 1.125 with AFloat f => PrimFloat.ltb 1 f | _ => false end = true)
  by reflexivity.
rewrite H in E. vm_compute in E. discriminate.
Qed.

(** C6, at the failing input: the valid frame MID 128, PID 190, data
    00 09.  The claim asks for EngineRPM = 9/8 = 1.125; the code
    divides the integers first and stores 1. *)
Theorem engine_rpm_truncated :
  exists p', parseFrame (frameWithChecksum (z2b 128) (z2b 190) (bytes [0; 9])) idle_bus = Ret p'
             /\ data p' !! "EngineRPM" = Some (AFloat 1)
             /\ data p' !! "EngineRPM" <> Some (AFloat 1.125).
Proof.
eexists. split; [reflexivity|]. split; [reflexivity|].
intros H. apply float_1_125_not_1. vm_compute in H. congruence.
Qed.

(** C3, on the J1587 path: when [IsNew] fails (here on a store that has
    been closed), [StartProcessingDTCs] logs the error and goes on to
    the next record; nothing reaches [PublishDTC]. *)
Theorem dedup_error_drops_j1587 (dtc : DTCCode) (p : Bus) (c : MQTTClient) (d : bolt.DB) :
  db p = Some d -> bolt.opened d = false ->
  StartProcessingDTCs_recv dtc p c =
  Ret (log (LogIsNewError (SPN dtc) (FMI dtc) ErrDatabaseNotOpen)
         (with_db d (log (LogDTCReceived dtc) p)), c).
Proof.
intros Hd Ho. unfold StartProcessingDTCs_recv.
change (db (log (LogDTCReceived dtc) p)) with (db p). rewrite Hd. simpl.
unfold storage.IsNew, bolt.Update. rewrite Ho. reflexivity.
Qed.

Lemma dedup_error_drops_j1587_witness :
  let dtc := mkDTC 128 194 7 2 0 0 in
  let p := mkBus None ∅ true (make_chan 10) (Some (bolt.Close new_db)) [] [] in
  exists p', StartProcessingDTCs_recv dtc p (mkMQTT true []) = Ret (p', mkMQTT true []).
Proof.
intros dtc p. eexists.
apply (dedup_error_drops_j1587 dtc p (mkMQTT true []) (bolt.Close new_db)); reflexivity.
Defined.

(** With a working store the same record is published. *)
Lemma new_dtc_published_j1587 :
  let dtc := mkDTC 128 194 7 2 0 0 in
  let p := mkBus None ∅ true (make_chan 10) (Some new_db) [] [] in
  exists p', StartProcessingDTCs_recv dtc p (mkMQTT true []) = Ret (p', mkMQTT true [dtc]).
Proof. eexists. reflexivity. Qed.

(** On the J1587 path a full DTC channel never parks the decoder: the
    record is dropped and the drop is logged. *)
Lemma offer_dtc_full (dtc : DTCCode) (pid : Z) (p : Bus) :
  chan_full (dtcChan p) = true ->
  offer_dtc dtc pid p = log (LogDTCChanFull pid) p.
Proof. intros H. unfold offer_dtc. rewrite H. reflexivity. Qed.

(** C9, at the failing input: a command of type [CommandTypeClearDTCs]
    without a target MID falls into the default arm of
    [handleMQTTCommand], which compares against the literal clear_dtc:
    nothing is written to the port, the store is not cleared, and the
    handler reports success. *)
Theorem clear_dtcs_command_ignored (bus : Bus) (spn fmi : option Z) :
  let cmd := mkCommand CommandTypeClearDTCs (mkParams None spn fmi) in
  handleMQTTCommand bus cmd =
  Ret (log (LogUnknownCommand CommandTypeClearDTCs) (log (LogCommand cmd) bus), None).
Proof. reflexivity. Qed.

(** The literal the handler does match: the frame 128, 250, checksum
    goes out and the bucket of the store is deleted. *)
Lemma clear_dtc_literal_handled :
  exists bus', handleMQTTCommand running_bus (mkCommand "clear_dtc" (mkParams None None None))
               = Ret (bus', None)
               /\ (wire <$> port bus') = Some [bytes [128; 250; 134]]
               /\ (bolt.buckets <$> db bus') = Some ∅.
Proof. eexists. split; [reflexivity|]. split; reflexivity. Qed.

End J1587_processing.

(** ** J1939: EEC1 and the diagnostic messages *)

Section J1939_processing.
Import j1939 obs.

(** C7.  Decoding the EEC1 payload FF FF FF 10 27 FF FF FF sets
    EngineRPM to (0x10 + 0x27 * 256) * 0.125 = 1250.0, and, byte 2
    being the 0xFF sentinel, clears EngineLoad: whatever it held
    before, the table holds Go's nil for it afterwards, not a number. *)
Theorem eec1_scenario (fp : FrameProcessor) :
  data (parseEEC1 eec1_payload fp) !! "EngineRPM" = Some (AFloat 1250)
  /\ data (parseEEC1 eec1_payload fp) !! "EngineLoad" = Some ANil.
Proof.
assert (E : parseEEC1 eec1_payload fp
            = Set_ "EngineLoad" ANil (Set_ "EngineRPM" (AFloat 1250) fp)) by reflexivity.
rewrite E. simpl. split.
- rewrite lookup_insert_ne by discriminate. apply lookup_insert_eq.
- apply lookup_insert_eq.
Qed.

Lemma dm1_entry : dtc_entry dm1_payload 2 = Ret (0x20201, 3, 5).
Proof. reflexivity. Qed.

Lemma parseDM1_unfold (sa : Z) (fp : FrameProcessor) :
  parseDM1 dm1_payload sa fp = parseDM1_loop 1 0 dm1_payload sa fp.
Proof. reflexivity. Qed.

(** C4 (as amended).  Decoding the DM1 payload 00 00 01 02 43 05 sends
    exactly one record on the DTC channel, with SPN = 0x01 | (0x02<<8)
    | ((0x43>>5)<<16) = 0x20201, FMI = 0x43 & 0x1F = 3 and OC = 0x05 &
    0x7F = 5, provided the channel has room and the store is absent or
    has not seen the key yet. *)
Theorem dm1_scenario (sa : Z) (fp : FrameProcessor) :
  chan_full (dtcChan fp) = false ->
  (db fp = None \/
   exists d b, db fp = Some d /\ holds d b /\ b !! storage.key 0x20201 3 = None) ->
  exists fp', parseDM1 dm1_payload sa fp = Ret fp'
              /\ buf (dtcChan fp') =
                 buf (dtcChan fp) ++ [mkDTC sa 0 0x20201 3 5 (hd 0 (clock fp))].
Proof.
intros Hroom Hdb. rewrite parseDM1_unfold.
cbn [parseDM1_loop]. change (2 + 0 * 4 + 3 >=? len dm1_payload) with false. cbv iota.
change (2 + 0 * 4) with 2. rewrite dm1_entry. cbn [mbind outcome_bind].
destruct Hdb as [Hn | (d & b & Hd & Hh & Hk)].
- rewrite Hn. cbn [mbind outcome_bind]. unfold send_dtc. simpl. rewrite Hroom.
  eexists. split; [reflexivity|]. reflexivity.
- rewrite Hd. rewrite (IsNew_first d b _ _ Hh Hk). cbn [mbind outcome_bind negb].
  unfold send_dtc. simpl. rewrite Hroom.
  eexists. split; [reflexivity|]. reflexivity.
Qed.

(** C8, at the failing input: with the DTC channel full, [parseDM1] and
    [parseDM2] park on their plain send [fp.dtcChan <- dtc]; the record
    is not dropped and frame processing does not go on. *)
Theorem dm_send_blocks_when_full (sa : Z) (fp : FrameProcessor) :
  chan_full (dtcChan fp) = true -> db fp = None ->
  parseDM1 dm1_payload sa fp = Block /\ parseDM2 dm1_payload sa fp = Block.
Proof.
intros Hfull Hn. split.
- rewrite parseDM1_unfold. cbn [parseDM1_loop].
  change (2 + 0 * 4 + 3 >=? len dm1_payload) with false. cbv iota.
  change (2 + 0 * 4) with 2. rewrite dm1_entry. cbn [mbind outcome_bind].
  rewrite Hn. cbn [mbind outcome_bind]. unfold send_dtc. simpl. rewrite Hfull. reflexivity.
- change (parseDM2 dm1_payload sa fp) with (parseDM2_loop 1 0 dm1_payload sa fp).
  cbn [parseDM2_loop].
  change (2 + 0 * 4 + 3 >=? len dm1_payload) with false. cbv iota.
  change (2 + 0 * 4) with 2. rewrite dm1_entry. cbn [mbind outcome_bind].
  unfold send_dtc. simpl. rewrite Hfull. reflexivity.
Qed.

Lemma dm1_scenario_witness :
  exists fp', parseDM1 dm1_payload 0 (new_processor (Some new_db)) = Ret fp'
              /\ buf (dtcChan fp') = [mkDTC 0 0 0x20201 3 5 0].
Proof.
apply (dm1_scenario 0 (new_processor (Some new_db))); [reflexivity|].
right. exists new_db, ∅. split; [reflexivity|]. split; [split; reflexivity | reflexivity].
Defined.

(** C4 as stated fails on the SPN: 0x43 >> 5 is 2, so the record
    carries 0x20201, not 0x10201. *)
Lemma dm1_scenario_counterexample :
  Z.shiftr 0x43 5 = 2
  /\ exists fp', parseDM1 dm1_payload 0 (new_processor None) = Ret fp'
                 /\ SPN <$> buf (dtcChan fp') = [0x20201]
                 /\ SPN <$> buf (dtcChan fp') <> [0x10201].
Proof.
split; [reflexivity|]. eexists. split; [reflexivity|]. split; [reflexivity|].
vm_compute. discriminate.
Qed.

Lemma dm_send_blocks_when_full_witness :
  let fp := mkFP ∅ (mkChan ten_dtcs 10) None [] [] in
  parseDM1 dm1_payload 0 fp = Block /\ parseDM2 dm1_payload 0 fp = Block.
Proof.
intros fp. apply (dm_send_blocks_when_full 0 fp); reflexivity.
Defined.

(** On the J1939 path a failing [IsNew] (a closed store) does not stop
    the record: it is sent on the DTC channel. *)
Lemma dedup_error_forwards_j1939 :
  exists fp', parseDM1 dm1_payload 0 (new_processor (Some (bolt.Close new_db))) = Ret fp'
              /\ buf (dtcChan fp') = [mkDTC 0 0 0x20201 3 5 0].
Proof. eexists. split; reflexivity. Qed.

End J1939_processing.

(** ** The metric table: snapshots *)

Section Snapshot.
Import pd obs.

Lemma make_map_spec (h : heap) :
  h !! fresh (dom h) = None /\ make_map h = (fresh (dom h), <[fresh (dom h) := ∅]> h).
Proof.
split; [|reflexivity]. apply not_elem_of_dom. apply is_fresh.
Qed.

Lemma map_assign_spec (l : loc) (key : string) (value : any) (h : heap) (m : gmap string any) :
  h !! l = Some m ->
  map_assign l key value h = Ret (<[l := <[key := value]> m]> h).
Proof. intros H. unfold map_assign. rewrite H. reflexivity. Qed.

Lemma range_copy_spec (src dst : loc) (h : heap) (m d : gmap string any) :
  h !! src = Some m -> h !! dst = Some d ->
  range_copy src dst h = Ret (<[dst := m ∪ d]> h).
Proof.
intros Hs Hd. unfold range_copy. rewrite Hs. simpl.
apply (map_fold_weak_ind (fun r m => r = Ret (<[dst := m ∪ d]> h))).
- rewrite (left_id_L ∅ (∪)). rewrite insert_id by exact Hd. reflexivity.
- intros i x m' r _ ->. simpl.
  rewrite (map_assign_spec dst i x _ (m' ∪ d)) by apply lookup_insert_eq.
  rewrite insert_insert_eq, insert_union_l. reflexivity.
Qed.

Lemma Copy_spec (p : ProtectedData) (h : heap) (m : gmap string any) :
  h !! Data p = Some m ->
  exists c, Copy p h = Ret (c, <[data c := m]> h) /\ h !! data c = None.
Proof.
intros Hp. destruct (make_map_spec h) as [Hfresh Hmk].
exists (mkCopied (fresh (dom h))). split; [|exact Hfresh].
unfold Copy. rewrite Hmk.
assert (Hne : fresh (dom h) <> Data p) by congruence.
rewrite (range_copy_spec (Data p) (fresh (dom h)) _ m ∅).
- simpl. rewrite (right_id_L ∅ (∪)), insert_insert_eq. reflexivity.
- rewrite lookup_insert_ne by exact Hne. exact Hp.
- apply lookup_insert_eq.
Qed.

Lemma Sets_frame (p : ProtectedData) (l : loc) (m : gmap string any) (kvs : list (string * any)) :
  l <> Data p ->
  forall (h : heap) (m' : gmap string any),
  h !! Data p = Some m' -> h !! l = Some m ->
  exists h2, Sets p kvs h = Ret h2
             /\ h2 !! l = Some m
             /\ h2 !! Data p = Some (foldl (fun acc kv => <[kv.1 := kv.2]> acc) m' kvs).
Proof.
intros Hne. induction kvs as [|[key value] kvs IH]; intros h m' Hp Hl.
- exists h. split; [reflexivity|]. split; assumption.
- simpl. unfold Set_. rewrite (map_assign_spec _ key value h m' Hp). simpl.
  apply IH.
  + apply lookup_insert_eq.
  + rewrite lookup_insert_ne by congruence. exact Hl.
Qed.

Lemma dataToMarshal_spec (src : loc) (now : string) (h : heap) (m : gmap string any) :
  h !! src = Some m ->
  exists h', dataToMarshal src now h = Ret (<["timestamp" := AString now]> m, h')
             /\ h' !! src = Some m.
Proof.
intros Hs. destruct (make_map_spec h) as [Hfresh Hmk].
assert (Hne : fresh (dom h) <> src) by congruence.
unfold dataToMarshal. rewrite Hmk.
rewrite (range_copy_spec src (fresh (dom h)) _ m ∅);
  [| rewrite lookup_insert_ne by exact Hne; exact Hs | apply lookup_insert_eq].
simpl.
rewrite (map_assign_spec _ _ _ _ (m ∪ ∅)) by apply lookup_insert_eq.
simpl. rewrite lookup_insert_eq. simpl.
rewrite (right_id_L ∅ (∪)).
eexists. split; [reflexivity|].
rewrite !lookup_insert_ne by exact Hne. exact Hs.
Qed.

(** C10 (as amended).  For every state of a [ProtectedData], [Copy]
    returns a marshaler over a map of its own holding exactly the
    key/value pairs present at the call; later [Set] calls change the
    table and leave that map as it was; and [MarshalJSON] of the
    snapshot hands [json.Marshal] those pairs with the key timestamp
    bound to the time of serialisation, nothing else: a copied pair
    whose key is timestamp is replaced by that field. *)
Theorem copy_is_snapshot (json_Marshal : gmap string any -> list byte * option error)
    (p : ProtectedData) (h : heap) (m : gmap string any)
    (kvs : list (string * any)) (now : string) :
  h !! Data p = Some m ->
  exists c h1,
    Copy p h = Ret (c, h1) /\ h1 !! data c = Some m
    /\ exists h2,
         Sets p kvs h1 = Ret h2
         /\ h2 !! Data p = Some (foldl (fun acc kv => <[kv.1 := kv.2]> acc) m kvs)
         /\ h2 !! data c = Some m
         /\ exists h3,
              copied_MarshalJSON json_Marshal c now h2 =
                Ret (json_Marshal (<["timestamp" := AString now]> m), h3)
              /\ h3 !! data c = Some m.
Proof.
intros Hp. destruct (Copy_spec p h m Hp) as (c & HC & Hfresh).
exists c, (<[data c := m]> h). split; [exact HC|].
split; [apply lookup_insert_eq|].
assert (Hne : data c <> Data p) by congruence.
destruct (Sets_frame p (data c) m kvs Hne (<[data c := m]> h) m) as (h2 & HS & Hl & Hp2).
{ rewrite lookup_insert_ne by exact Hne. exact Hp. }
{ apply lookup_insert_eq. }
exists h2. split; [exact HS|]. split; [exact Hp2|]. split; [exact Hl|].
destruct (dataToMarshal_spec (data c) now h2 m Hl) as (h3 & HM & Hl3).
exists h3. split; [|exact Hl3].
unfold copied_MarshalJSON. rewrite HM. reflexivity.
Qed.

Lemma copy_is_snapshot_witness :
  let h : heap := {[ 1%positive := {[ "Speed" := AFloat 50 ]} ]} in
  exists c h1 h2,
    Copy (mkPD 1) h = Ret (c, h1)
    /\ Sets (mkPD 1) [("Speed", AFloat 60)] h1 = Ret h2
    /\ h2 !! 1%positive = Some {[ "Speed" := AFloat 60 ]}
    /\ h2 !! data c = Some {[ "Speed" := AFloat 50 ]}.
Proof.
intros h.
destruct (copy_is_snapshot (fun _ => ([], None)) (mkPD 1) h {[ "Speed" := AFloat 50 ]}
            [("Speed", AFloat 60)] "now") as (c & h1 & HC & _ & h2 & HS & Hp & Hc & _).
{ reflexivity. }
exists c, h1, h2. split; [exact HC|]. split; [exact HS|]. split; [|exact Hc].
simpl in Hp. rewrite Hp. rewrite insert_singleton_eq. reflexivity.
Defined.

(** C10 as stated fails on a table that has a timestamp entry: the pair
    is in the snapshot, but what is serialised carries the time
    instead. *)
Lemma copy_timestamp_counterexample :
  let m : gmap string any := {[ "timestamp" := AFloat 1 ]} in
  let h : heap := {[ 1%positive := m ]} in
  exists c h1 out h2,
    Copy (mkPD 1) h = Ret (c, h1)
    /\ h1 !! data c = Some m
    /\ dataToMarshal (data c) "2026" h1 = Ret (out, h2)
    /\ m !! "timestamp" = Some (AFloat 1)
    /\ out !! "timestamp" <> Some (AFloat 1).
Proof.
intros m h.
destruct (Copy_spec (mkPD 1) h m eq_refl) as (c & HC & _).
destruct (dataToMarshal_spec (data c) "2026" (<[data c := m]> h) m) as (h2 & HM & _).
{ apply lookup_insert_eq. }
exists c, (<[data c := m]> h), (<["timestamp" := AString "2026"]> m), h2.
split; [exact HC|]. split; [apply lookup_insert_eq|].
split; [exact HM|]. split; [reflexivity|].
rewrite lookup_insert_eq. discriminate.
Qed.

End Snapshot.

(** * Further properties of the modelled code *)

(** ** The deduplication store: keys *)

Section Keys.
Import storage obs aux.

Lemma string_app_assoc (s t u : string) : (s +:+ t) +:+ u = s +:+ t +:+ u.
Proof.
induction s as [|c s IH]; [reflexivity|].
change (String c ((s +:+ t) +:+ u) = String c (s +:+ t +:+ u)).
rewrite IH. reflexivity.
Qed.

Lemma pretty_N_go_app (x : N) (s : string) :
  pretty_N_go x s = pretty_N_go x "" +:+ s.
Proof.
revert s. induction (N.lt_wf_0 x) as [x _ IH]; intros s.
destruct (decide (x = 0)%N) as [->|Hx]; [reflexivity|].
rewrite (pretty_N_go_step x s), (pretty_N_go_step x "") by lia.
rewrite (IH (x `div` 10)%N) by (apply N.div_lt; lia).
rewrite (IH (x `div` 10)%N ltac:(apply N.div_lt; lia) (String _ "")).
rewrite string_app_assoc. reflexivity.
Qed.

Lemma string_app_cons (c : Ascii.ascii) (s t : string) :
  String c s +:+ t = String c (s +:+ t).
Proof. reflexivity. Qed.

Lemma string_app_nil (t : string) : "" +:+ t = t.
Proof. reflexivity. Qed.

Lemma no_colon_app (s t : string) : no_colon s -> no_colon t -> no_colon (s +:+ t).
Proof.
induction s as [|c s IH]; [auto|].
intros [Hc Hs] Ht. rewrite string_app_cons. split; auto.
Qed.

Lemma no_colon_pretty_N_go (x : N) : no_colon (pretty_N_go x "").
Proof.
induction (N.lt_wf_0 x) as [x _ IH].
destruct (decide (x = 0)%N) as [->|Hx]; [exact I|].
rewrite pretty_N_go_step by lia. rewrite pretty_N_go_app.
apply no_colon_app; [apply IH, N.div_lt; lia|].
split; [|exact I].
unfold pretty_N_char. repeat case_match; discriminate.
Qed.

Lemma no_colon_pretty (z : Z) : 0 <= z -> no_colon (pretty z).
Proof.
intros Hz. destruct z as [|p|p]; [split; [discriminate|exact I]| |lia].
unfold pretty, pretty_Z, pretty, pretty_positive, pretty, pretty_N.
destruct (decide (N.pos p = 0%N)); [discriminate|]. apply no_colon_pretty_N_go.
Qed.

Lemma colon_split (a a' t t' : string) :
  no_colon a -> no_colon a' ->
  a +:+ ":" +:+ t = a' +:+ ":" +:+ t' -> a = a' /\ t = t'.
Proof.
revert a'. induction a as [|c a IH]; intros [|c' a'] Ha Ha' E;
  rewrite ?string_app_cons, ?string_app_nil in E.
- injection E as <-. auto.
- injection E as <- _. destruct Ha' as [Hc _]. congruence.
- injection E as -> _. destruct Ha as [Hc _]. congruence.
- injection E as <- E. destruct Ha as [_ Ha], Ha' as [_ Ha'].
  destruct (IH a' Ha Ha' E) as [<- <-]. auto.
Qed.

Lemma key_inj (spn fmi spn' fmi' : Z) :
  0 <= spn -> 0 <= fmi -> 0 <= spn' -> 0 <= fmi' ->
  key spn fmi = key spn' fmi' -> spn = spn' /\ fmi = fmi'.
Proof.
intros H1 H2 H3 H4 E. unfold key in E.
apply colon_split in E as [Ea Eb]; [|apply no_colon_pretty; assumption..].
split; eapply (inj pretty); eassumption.
Qed.

(** X1.  On an open store whose bucket does not hold the key of
    (spn, fmi), [n + 1] sightings in a row get the answers true, false,
    ..., false from [IsNew], and the store ends up holding the key next
    to what it held. *)
Theorem dedup_reports_once (n : nat) (db : bolt.DB) (b : bolt.Bucket) (spn fmi : Z) :
  holds db b -> b !! key spn fmi = None ->
  exists db', sightings (S n) db spn fmi = Ret (db', true :: replicate n false)
              /\ holds db' (<[key spn fmi := [x01]]> b).
Proof.
intros Hh Hk. exists (record spn fmi db b). split.
- apply sightings_new; assumption.
- apply record_holds.
Qed.

Lemma dedup_reports_once_witness :
  exists db', sightings 4 new_db 190 3 = Ret (db', [true; false; false; false])
              /\ holds db' {[ key 190 3 := [x01] ]}.
Proof.
apply (dedup_reports_once 3 new_db ∅ 190 3); [split; reflexivity | reflexivity].
Defined.

Lemma IsNew_holds (db : bolt.DB) (b : bolt.Bucket) (spn fmi : Z) :
  holds db b ->
  exists db' r, IsNew db spn fmi = Ret (db', r, None)
                /\ holds db' (<[key spn fmi := default [x01] (b !! key spn fmi)]> b)
                /\ r = bool_decide (b !! key spn fmi = None).
Proof.
intros Hh. destruct (b !! key spn fmi) as [v|] eqn:Hk.
- exists db, false. rewrite (IsNew_seen db b) by eauto.
  split; [reflexivity|]. split; [|reflexivity].
  simpl. rewrite insert_id by exact Hk. exact Hh.
- exists (record spn fmi db b), true. rewrite (IsNew_first db b) by assumption.
  split; [reflexivity|]. split; [apply record_holds|reflexivity].
Qed.

(** X2.  Keys do not collide: for non-negative codes, a sighting of
    (spn, fmi) leaves what the store knows about any other pair
    (spn', fmi') as it was. *)
Theorem dedup_keys_independent (db : bolt.DB) (b : bolt.Bucket) (spn fmi spn' fmi' : Z) :
  holds db b ->
  0 <= spn -> 0 <= fmi -> 0 <= spn' -> 0 <= fmi' ->
  (spn, fmi) <> (spn', fmi') ->
  exists db1 r b1, IsNew db spn fmi = Ret (db1, r, None)
                   /\ holds db1 b1
                   /\ b1 !! key spn' fmi' = b !! key spn' fmi'.
Proof.
intros Hh H1 H2 H3 H4 Hne.
destruct (IsNew_holds db b spn fmi Hh) as (db1 & r & E & Hh1 & _).
eexists db1, r, _. split; [exact E|]. split; [exact Hh1|].
apply lookup_insert_ne. intros Ek.
apply key_inj in Ek as [-> ->]; [|assumption..]. apply Hne. reflexivity.
Qed.

Lemma dedup_keys_independent_witness :
  exists db1 r b1, IsNew new_db 1 23 = Ret (db1, r, None)
                   /\ holds db1 b1
                   /\ b1 !! key 12 3 = (∅ : bolt.Bucket) !! key 12 3.
Proof.
apply (dedup_keys_independent new_db ∅ 1 23 12 3);
  [split; reflexivity | lia | lia | lia | lia | intros [= ? ?]; lia].
Defined.

(** X3.  [Remove] succeeds whether or not the key is recorded, forgets
    exactly the key of (spn, fmi) and keeps every other pair. *)
Theorem remove_resets_only_its_key (db : bolt.DB) (b : bolt.Bucket) (spn fmi spn' fmi' : Z) :
  holds db b ->
  0 <= spn -> 0 <= fmi -> 0 <= spn' -> 0 <= fmi' ->
  (spn, fmi) <> (spn', fmi') ->
  exists db' b', Remove db spn fmi = Ret (db', None)
                 /\ holds db' b'
                 /\ b' !! key spn fmi = None
                 /\ b' !! key spn' fmi' = b !! key spn' fmi'.
Proof.
intros Hh H1 H2 H3 H4 Hne.
destruct (Remove_holds db b spn fmi Hh) as (db' & E & Hh').
exists db', (delete (key spn fmi) b). split; [exact E|]. split; [exact Hh'|].
split; [apply lookup_delete_eq|].
apply lookup_delete_ne. intros Ek.
apply key_inj in Ek as [-> ->]; [|assumption..]. apply Hne. reflexivity.
Qed.

Lemma remove_resets_only_its_key_witness :
  exists db' b', Remove (record 12 3 (record 1 23 new_db ∅) {[ key 1 23 := [x01] ]}) 1 23
                   = Ret (db', None)
                 /\ holds db' b'
                 /\ b' !! key 1 23 = None
                 /\ b' !! key 12 3
                    = (<[key 12 3 := [x01]]> {[ key 1 23 := [x01] ]} : bolt.Bucket) !! key 12 3.
Proof.
apply (remove_resets_only_its_key
         (record 12 3 (record 1 23 new_db ∅) {[ key 1 23 := [x01] ]})
         (<[key 12 3 := [x01]]> {[ key 1 23 := [x01] ]}) 1 23 12 3);
  [apply record_holds | lia | lia | lia | lia | intros [= ? ?]; lia].
Defined.




End Keys.

(** ** J1587: what the checksum detects *)

Section Checksum_more.
Import j1587 obs.

Lemma b2z_inj (b c : byte) : b2z b = b2z c -> b = c.
Proof. intros H. rewrite <- (z2b_b2z b), <- (z2b_b2z c), H. reflexivity. Qed.

Lemma byte_sum_one (c : byte) : byte_sum [c] = b2z c.
Proof. unfold byte_sum. simpl. lia. Qed.

Lemma validate_iff (frame : list byte) :
  validateJ1587Checksum frame = true <-> 3 <= len frame /\ byte_sum frame mod 256 = 0.
Proof.
unfold validateJ1587Checksum. pose proof (byte_sum_nonneg frame).
rewrite Z.rem_mod_nonneg by lia.
destruct (Z.ltb_spec (len frame) 3).
- split; [discriminate|lia].
- rewrite Z.eqb_eq. split; [intros; split; [lia|assumption]|intros [_ ?]; assumption].
Qed.

(** X6.  The checksum byte is unique: for a body of at least two
    bytes, the frame body ++ [c] is accepted by [validateJ1587Checksum]
    exactly when [c] is [calculateJ1587Checksum body]. *)
Theorem checksum_unique (frame : list byte) (c : byte) :
  2 <= len frame ->
  validateJ1587Checksum (frame ++ [c]) = true <-> c = calculateJ1587Checksum frame.
Proof.
intros Hlen. split.
- intros Hv. apply validate_iff in Hv as [_ Hs].
  rewrite byte_sum_app, byte_sum_one in Hs.
  apply b2z_inj. unfold calculateJ1587Checksum. rewrite b2z_z2b.
  pose proof (byte_sum_nonneg frame). pose proof (b2z_range c).
  rewrite Z.rem_mod_nonneg by lia.
  set (s := byte_sum frame) in *. set (x := b2z c) in *. clearbody s x.
  Z.to_euclidean_division_equations. lia.
- intros ->. apply validate_iff. split.
  + rewrite len_app. unfold len at 2. simpl. lia.
  + pose proof (checksum_closes frame) as Hc.
    pose proof (byte_sum_nonneg (frame ++ [calculateJ1587Checksum frame])).
    rewrite Z.rem_mod_nonneg in Hc by lia. exact Hc.
Qed.

Lemma checksum_unique_witness :
  validateJ1587Checksum (bytes [128; 84] ++ [z2b 44]) = true
  <-> z2b 44 = calculateJ1587Checksum (bytes [128; 84]).
Proof. apply (checksum_unique (bytes [128; 84]) (z2b 44)). vm_compute. discriminate. Defined.

Lemma byte_sum_insert (f : list byte) (i : nat) (b b' : byte) :
  f !! i = Some b ->
  byte_sum (<[i := b']> f) = byte_sum f - b2z b + b2z b'.
Proof.
intros Hi.
rewrite <- (take_drop_middle f i b Hi) at 2.
rewrite insert_take_drop by (eapply lookup_lt_Some; eassumption).
rewrite !byte_sum_app.
change (b' :: drop (S i) f) with ([b'] ++ drop (S i) f).
change (b :: drop (S i) f) with ([b] ++ drop (S i) f).
rewrite !byte_sum_app, !byte_sum_one. lia.
Qed.

(** X7.  Any change of a single byte of a valid frame is detected:
    the altered frame is rejected. *)
Theorem single_byte_corruption_detected (f : list byte) (i : nat) (b b' : byte) :
  validateJ1587Checksum f = true ->
  f !! i = Some b -> b' <> b ->
  validateJ1587Checksum (<[i := b']> f) = false.
Proof.
intros Hv Hi Hne. apply validate_iff in Hv as [Hl Hs].
destruct (validateJ1587Checksum (<[i := b']> f)) eqn:E; [|reflexivity].
apply validate_iff in E as [_ Hs']. rewrite (byte_sum_insert f i b b' Hi) in Hs'.
exfalso. apply Hne. apply b2z_inj.
pose proof (b2z_range b). pose proof (b2z_range b').
set (s := byte_sum f) in *. set (x := b2z b) in *. set (y := b2z b') in *.
clearbody s x y. Z.to_euclidean_division_equations. lia.
Qed.

Lemma single_byte_corruption_detected_witness :
  validateJ1587Checksum (<[2%nat := z2b 51]> (frameWithChecksum (z2b 128) (z2b 84) (bytes [50])))
  = false.
Proof.
apply (single_byte_corruption_detected
         (frameWithChecksum (z2b 128) (z2b 84) (bytes [50])) 2 (z2b 50) (z2b 51));
  [reflexivity | reflexivity | vm_compute; discriminate].
Defined.

End Checksum_more.

(** ** J1587: what decoding a frame leaves alone *)

Section Walk_more.
Import j1587 obs aux.

Lemma extends_refl (p : Bus) : extends p p.
Proof. unfold extends. repeat split; auto. Qed.

Lemma extends_trans (p q r : Bus) : extends p q -> extends q r -> extends p r.
Proof.
unfold extends. intros (A1 & A2 & A3 & A4 & A5 & A6 & A7) (B1 & B2 & B3 & B4 & B5 & B6 & B7).
repeat split; try congruence; try (etransitivity; eassumption). auto.
Qed.

Lemma extends_log (m : LogMsg) (p : Bus) : extends p (log m p).
Proof. unfold extends, log. simpl. repeat split; auto. apply prefix_app_r. reflexivity. Qed.

Lemma extends_Set (k : string) (v : any) (p : Bus) : extends p (Set_ k v p).
Proof. unfold extends, Set_. simpl. repeat split; auto. Qed.

Lemma extends_offer (dtc : DTCCode) (pid : Z) (p : Bus) :
  extends (with_clock (tl (clock p)) p) (offer_dtc dtc pid (with_clock (tl (clock p)) p)).
Proof.
unfold offer_dtc. destruct (chan_full _) eqn:E; [apply extends_log|].
unfold extends, with_dtcChan, chan_push, chan_full in *. simpl in *.
repeat split; auto.
- apply prefix_app_r. reflexivity.
- intros _. rewrite length_app. simpl. apply Nat.leb_gt in E. lia.
Qed.

Lemma extends_clock (c : list Z) (p : Bus) : extends p (with_clock c p).
Proof. unfold extends, with_clock. simpl. repeat split; auto. Qed.

Lemma processPIDData_extends (mid pid : Z) (paramData : list byte) (p : Bus) :
  extends p (processPIDData mid pid paramData p).
Proof.
unfold processPIDData.
repeat (case_match; try apply extends_refl; try apply extends_Set; try apply extends_log).
unfold time_Now in *. simplify_eq.
eapply extends_trans; [apply extends_clock|apply extends_offer].
Qed.

Ltac ret_inv H := injection H as <-.
Ltac run_bind H := cbn [mbind outcome_bind] in H; try discriminate H.

Lemma walk_extends (fuel : nat) : forall mid data offset p p',
  walk fuel mid data offset p = Ret p' -> extends p p'.
Proof.
induction fuel as [|fuel IH]; intros mid data offset p p' H.
- simpl in H. destruct (offset <? len data); [discriminate|]. ret_inv H. apply extends_refl.
- rewrite walk_S in H.
  destruct (offset <? len data); [|ret_inv H; apply extends_refl].
  destruct (index data offset) as [pid| | |]; run_bind H.
  destruct (getPIDDataLength pid data (offset + 1)) as [[n err]| | |]; run_bind H.
  destruct err; [ret_inv H; apply extends_log|].
  assert (Hblock : forall paramData off',
             walk fuel mid data off'
               (processPIDData mid (b2z pid) paramData (log (LogProcessing pid paramData) p))
             = Ret p' -> extends p p').
  { intros paramData off' Hw. apply IH in Hw.
    eapply extends_trans; [|exact Hw].
    eapply extends_trans; [apply extends_log | apply processPIDData_extends]. }
  destruct ((192 <=? b2z pid) && (b2z pid <=? 253)); cbn [andb] in H.
  + destruct (offset + 1 >=? len data); [ret_inv H; apply extends_log|].
    destruct (index data (offset + 1)) as [l| | |]; run_bind H.
    destruct (offset + 1 + 1 + b2z l >? len data); [ret_inv H; apply extends_log|].
    destruct (slice data (offset + 1 + 1) (offset + 1 + 1 + b2z l)) as [pd| | |]; run_bind H.
    eapply Hblock, H.
  + run_bind H.
    destruct (offset + 1 + n >? len data); [ret_inv H; apply extends_log|].
    destruct (slice data (offset + 1) (offset + 1 + n)) as [pd| | |]; run_bind H.
    eapply Hblock, H.
Qed.

(** X8.  [parseFrame] returns on every frame and only decodes: the
    port, the store and the running flag are untouched, the log and
    the DTC channel only grow, and a channel within its capacity stays
    within it. *)
Theorem parseFrame_keeps_bus (frame : list byte) (p : Bus) :
  exists p', parseFrame frame p = Ret p' /\ extends p p'.
Proof.
destruct (parseFrame_total frame p) as [p' H]. exists p'. split; [exact H|].
unfold parseFrame in H.
destruct (len frame <? 3); [ret_inv H; apply extends_log|].
destruct (negb (validateJ1587Checksum frame)); [ret_inv H; apply extends_log|].
destruct (index frame 0) as [m| | |]; run_bind H.
destruct (slice frame 1 (len frame - 1)) as [d| | |]; run_bind H.
apply walk_extends in H. eapply extends_trans; [apply extends_log|exact H].
Qed.

Lemma processPIDData_data (mid pid : Z) (paramData : list byte) :
  exists kvs : list (string * any), forall p,
    data (processPIDData mid pid paramData p)
    = foldl (fun m kv => <[kv.1 := kv.2]> m) (data p) kvs.
Proof.
unfold processPIDData.
repeat case_match;
  try (exists []; intros p; reflexivity);
  try (eexists [(_, _)]; intros p; reflexivity).
exists nil. intros p. unfold time_Now in *. simplify_eq.
unfold offer_dtc. destruct (chan_full _); reflexivity.
Qed.

Lemma walk_data (fuel : nat) : forall mid data offset,
  exists kvs : list (string * any), forall p p',
    walk fuel mid data offset p = Ret p' ->
    j1587.data p' = foldl (fun m kv => <[kv.1 := kv.2]> m) (j1587.data p) kvs.
Proof.
induction fuel as [|fuel IH]; intros mid data offset.
- exists []. intros p p' H. simpl in H.
  destruct (offset <? len data); [discriminate|]. ret_inv H. reflexivity.
- assert (Hstop : exists kvs : list (string * any), forall p p' : Bus,
             (exists m, Ret (log m p) = Ret p') \/ Ret p = Ret p' ->
             j1587.data p' = foldl (fun m kv => <[kv.1 := kv.2]> m) (j1587.data p) kvs).
  { exists []. intros p p' [[m H]|H]; ret_inv H; reflexivity. }
  assert (Hblock : forall pid paramData off', exists kvs : list (string * any), forall p p',
             walk fuel mid data off'
               (processPIDData mid (b2z pid) paramData (log (LogProcessing pid paramData) p))
             = Ret p' ->
             j1587.data p' = foldl (fun m kv => <[kv.1 := kv.2]> m) (j1587.data p) kvs).
  { intros pid paramData off'.
    destruct (processPIDData_data mid (b2z pid) paramData) as [k1 H1].
    destruct (IH mid data off') as [k2 H2].
    exists (k1 ++ k2). intros p p' Hw. rewrite (H2 _ _ Hw), H1, foldl_app. reflexivity. }
  destruct Hstop as [k0 Hstop].
  setoid_rewrite walk_S.
  destruct (offset <? len data); [|exists k0; intros p p' H; apply Hstop; auto].
  destruct (index data offset) as [pid| | |]; cbn [mbind outcome_bind];
    try (exists []; intros p p' H; discriminate H).
  destruct (getPIDDataLength pid data (offset + 1)) as [[n err]| | |];
    cbn [mbind outcome_bind];
    try (exists []; intros p p' H; discriminate H).
  destruct err; [exists k0; intros p p' H; apply Hstop; eauto|].
  destruct ((192 <=? b2z pid) && (b2z pid <=? 253)); cbn [andb].
  + destruct (offset + 1 >=? len data);
      [exists k0; intros p p' H; apply Hstop; eauto|].
    destruct (index data (offset + 1)) as [l| | |]; cbn [mbind outcome_bind];
      try (exists []; intros p p' H; discriminate H).
    destruct (offset + 1 + 1 + b2z l >? len data);
      [exists k0; intros p p' H; apply Hstop; eauto|].
    destruct (slice data (offset + 1 + 1) (offset + 1 + 1 + b2z l)) as [pd| | |];
      cbn [mbind outcome_bind];
      try (exists []; intros p p' H; discriminate H).
    apply Hblock.
  + cbn [mbind outcome_bind].
    destruct (offset + 1 + n >? len data);
      [exists k0; intros p p' H; apply Hstop; eauto|].
    destruct (slice data (offset + 1) (offset + 1 + n)) as [pd| | |];
      cbn [mbind outcome_bind];
      try (exists []; intros p p' H; discriminate H).
    apply Hblock.
Qed.

Lemma parseFrame_data (frame : list byte) :
  exists kvs : list (string * any), forall p p',
    parseFrame frame p = Ret p' ->
    j1587.data p' = foldl (fun m kv => <[kv.1 := kv.2]> m) (j1587.data p) kvs.
Proof.
unfold parseFrame.
destruct (len frame <? 3); [exists []; intros p p' H; ret_inv H; reflexivity|].
destruct (negb (validateJ1587Checksum frame));
  [exists []; intros p p' H; ret_inv H; reflexivity|].
destruct (index frame 0) as [m| | |]; try (exists []; intros p p' H; run_bind H; fail).
destruct (slice frame 1 (len frame - 1)) as [d| | |];
  try (exists []; intros p p' H; run_bind H; fail).
cbn [mbind outcome_bind].
destruct (walk_data (length d) (b2z m) d 0) as [kvs H].
exists kvs. intros p p' Hw. apply H in Hw. exact Hw.
Qed.

Lemma updates_lookup (kvs : list (string * any)) (k : string) :
  (forall m : gmap string any, foldl (fun m kv => <[kv.1 := kv.2]> m) m kvs !! k = m !! k)
  \/ (exists v, forall m : gmap string any,
         foldl (fun m kv => <[kv.1 := kv.2]> m) m kvs !! k = Some v).
Proof.
induction kvs as [|[k' v'] kvs IH]; [left; reflexivity|].
simpl. destruct IH as [IH|[v IH]].
- destruct (decide (k' = k)) as [->|Hne].
  + right. exists v'. intros m. rewrite IH. apply lookup_insert_eq.
  + left. intros m. rewrite IH. apply lookup_insert_ne. exact Hne.
- right. exists v. intros m. apply IH.
Qed.

Lemma updates_idempotent (kvs : list (string * any)) (m : gmap string any) :
  foldl (fun m kv => <[kv.1 := kv.2]> m) (foldl (fun m kv => <[kv.1 := kv.2]> m) m kvs) kvs
  = foldl (fun m kv => <[kv.1 := kv.2]> m) m kvs.
Proof.
apply map_eq. intros k.
destruct (updates_lookup kvs k) as [H|[v H]]; rewrite !H; reflexivity.
Qed.

(** X9.  Decoding is idempotent on the metric table: parsing the same
    frame a second time leaves every metric as the first parse set it. *)
Theorem parseFrame_metrics_idempotent (frame : list byte) (p : Bus) :
  exists p1 p2, parseFrame frame p = Ret p1
                /\ parseFrame frame p1 = Ret p2
                /\ j1587.data p2 = j1587.data p1.
Proof.
destruct (parseFrame_total frame p) as [p1 H1].
destruct (parseFrame_total frame p1) as [p2 H2].
exists p1, p2. split; [exact H1|]. split; [exact H2|].
destruct (parseFrame_data frame) as [kvs H].
rewrite (H _ _ H2), (H _ _ H1). apply updates_idempotent.
Qed.
End Walk_more.

(** ** Bit arithmetic *)

Lemma testbit_above (a n i : Z) : 0 <= a < 2 ^ n -> n <= i -> Z.testbit a i = false.
Proof.
intros [Ha Hlt] Hi.
destruct (Z.eq_dec a 0) as [->|Hne]; [apply Z.bits_0|].
apply Z.bits_above_log2; [lia|].
assert (Z.log2 a < n); [|lia].
apply Z.log2_lt_pow2; lia.
Qed.

Lemma lor_mul_pow2_add (k a n : Z) :
  0 <= n -> 0 <= a < 2 ^ n -> Z.lor (k * 2 ^ n) a = k * 2 ^ n + a.
Proof.
intros Hn Ha.
rewrite <- (Z.add_lor_land (k * 2 ^ n) a).
assert (E : Z.land (k * 2 ^ n) a = 0); [|rewrite E; lia].
apply Z.bits_inj'. intros i Hi. rewrite Z.land_spec, Z.bits_0.
destruct (Z.lt_ge_cases i n).
- rewrite Z.mul_pow2_bits_low by lia. reflexivity.
- rewrite (testbit_above a n i) by lia. apply andb_false_r.
Qed.

Lemma lor_add_mul_pow2 (k a n : Z) :
  0 <= n -> 0 <= a < 2 ^ n -> Z.lor a (k * 2 ^ n) = a + k * 2 ^ n.
Proof. intros. rewrite Z.lor_comm, lor_mul_pow2_add by assumption. lia. Qed.

Lemma land_15 (x : Z) : Z.land x 15 = x mod 16.
Proof. change 15 with (Z.ones 4). rewrite Z.land_ones by lia. reflexivity. Qed.

Lemma land_31 (x : Z) : Z.land x 31 = x mod 32.
Proof. change 31 with (Z.ones 5). rewrite Z.land_ones by lia. reflexivity. Qed.

Lemma land_127 (x : Z) : Z.land x 127 = x mod 128.
Proof. change 127 with (Z.ones 7). rewrite Z.land_ones by lia. reflexivity. Qed.

Section J1587_values.
Import j1587 obs.

(** The 4-byte big-endian odometer. *)
Lemma big_endian_32 (b0 b1 b2 b3 : byte) :
  Z.lor (Z.lor (Z.lor (Z.shiftl (b2z b0) 24) (Z.shiftl (b2z b1) 16))
               (Z.shiftl (b2z b2) 8)) (b2z b3)
  = b2z b0 * 2 ^ 24 + b2z b1 * 2 ^ 16 + b2z b2 * 2 ^ 8 + b2z b3.
Proof.
pose proof (b2z_range b0). pose proof (b2z_range b1).
pose proof (b2z_range b2). pose proof (b2z_range b3).
rewrite !Z.shiftl_mul_pow2 by lia.
rewrite (lor_mul_pow2_add (b2z b0) (b2z b1 * 2 ^ 16) 24) by lia.
replace (b2z b0 * 2 ^ 24 + b2z b1 * 2 ^ 16) with ((b2z b0 * 2 ^ 8 + b2z b1) * 2 ^ 16) by lia.
rewrite (lor_mul_pow2_add _ (b2z b2 * 2 ^ 8) 16) by lia.
replace ((b2z b0 * 2 ^ 8 + b2z b1) * 2 ^ 16 + b2z b2 * 2 ^ 8)
  with ((b2z b0 * 2 ^ 16 + b2z b1 * 2 ^ 8 + b2z b2) * 2 ^ 8) by lia.
rewrite (lor_mul_pow2_add _ (b2z b3) 8) by lia.
lia.
Qed.

(** X11.  PID 245 is decoded as a 4-byte big-endian number of 0.1 km
    units: the shifts and ors amount to
    b0 * 2^24 + b1 * 2^16 + b2 * 2^8 + b3. *)
Theorem total_distance_big_endian (mid : Z) (b0 b1 b2 b3 : byte) (rest : list byte) (p : Bus) :
  processPIDData mid PID_TOTAL_DISTANCE (b0 :: b1 :: b2 :: b3 :: rest) p
  = Set_ "TotalDistance"
      (AFloat (float64 (b2z b0 * 2 ^ 24 + b2z b1 * 2 ^ 16 + b2z b2 * 2 ^ 8 + b2z b3) * 0.1)%float) p.
Proof. rewrite <- big_endian_32. reflexivity. Qed.

(** X10.  For PID 194 and 195 with at least three data bytes and room
    on the channel, exactly one record is queued, carrying the MID and
    PID of the block, the first byte as code and the low four bits of
    the second byte as FMI; the metric table and the log are untouched. *)
Theorem j1587_dtc_record (mid pid : Z) (b0 b1 b2 : byte) (rest : list byte) (p : Bus) :
  pid = PID_ACTIVE_DTC \/ pid = PID_PREVIOUSLY_ACTIVE_DTC ->
  chan_full (dtcChan p) = false ->
  let p' := processPIDData mid pid (b0 :: b1 :: b2 :: rest) p in
  buf (dtcChan p') = buf (dtcChan p) ++ [mkDTC mid pid (b2z b0) (b2z b1 mod 16) 0 (hd 0 (clock p))]
  /\ data p' = data p
  /\ clock p' = tl (clock p)
  /\ logs p' = logs p.
Proof.
intros Hpid Hroom p'. subst p'. rewrite <- land_15.
destruct Hpid as [-> | ->]; unfold processPIDData; simpl; unfold offer_dtc; simpl;
  rewrite Hroom; repeat split; reflexivity.
Qed.

Lemma j1587_dtc_record_witness :
  let p' := processPIDData 128 194 (bytes [110; 0x23; 1]) idle_bus in
  buf (dtcChan p') = buf (dtcChan idle_bus) ++ [mkDTC 128 194 (b2z (z2b 110)) (b2z (z2b 0x23) mod 16) 0 (hd 0 (clock idle_bus))]
  /\ data p' = data idle_bus
  /\ clock p' = tl (clock idle_bus)
  /\ logs p' = logs idle_bus.
Proof.
apply (j1587_dtc_record 128 194 (z2b 110) (z2b 0x23) (z2b 1) [] idle_bus); [left|]; reflexivity.
Defined.
End J1587_values.

(** ** J1587: the frame assembler *)

Section Assembler.
Import j1587 obs.

Lemma take_byte_bytes (now : Z) (a : Assembler) (b : byte) :
  concat (asm_sent (take_byte now a b)) ++ asm_frame (take_byte now a b)
  = (concat (asm_sent a) ++ asm_frame a) ++ [b].
Proof.
unfold take_byte, flush. case_match; simpl.
- rewrite concat_app. simpl. rewrite app_nil_r. reflexivity.
- rewrite app_assoc. reflexivity.
Qed.

Lemma take_bytes_bytes (now : Z) (bs : list byte) : forall a,
  concat (asm_sent (foldl (take_byte now) a bs)) ++ asm_frame (foldl (take_byte now) a bs)
  = (concat (asm_sent a) ++ asm_frame a) ++ bs.
Proof.
induction bs as [|b bs IH]; intros a; simpl; [rewrite app_nil_r; reflexivity|].
rewrite IH, take_byte_bytes, <- app_assoc. reflexivity.
Qed.

Lemma len_zero {A} (l : list A) : (len l =? 0) = true -> l = [].
Proof.
intros H. apply Z.eqb_eq in H. unfold len in H. destruct l; [reflexivity|simpl in H; lia].
Qed.

Lemma read_turn_bytes (a : Assembler) (r : Read) :
  concat (asm_sent (read_turn a r)) ++ asm_frame (read_turn a r)
  = (concat (asm_sent a) ++ asm_frame a) ++ rd_bytes r.
Proof.
unfold read_turn.
set (a1 := match rd_err r with Some e => _ | None => a end).
assert (E : concat (asm_sent a1) ++ asm_frame a1 = concat (asm_sent a) ++ asm_frame a)
  by (subst a1; destruct (rd_err r); reflexivity).
rewrite <- E. destruct (len (rd_bytes r) =? 0) eqn:Hn.
- rewrite (len_zero _ Hn), app_nil_r. case_match; [|reflexivity].
  unfold flush. simpl. rewrite concat_app. simpl. rewrite !app_nil_r. reflexivity.
- apply take_bytes_bytes.
Qed.

(** X12.  The assembler neither loses, duplicates nor reorders bytes:
    the frames sent so far followed by the pending buffer are exactly
    the bytes read so far. *)
Theorem readFrames_conserves_bytes (start : Z) (reads : list Read) :
  concat (asm_sent (readFrames start reads)) ++ asm_frame (readFrames start reads)
  = concat (rd_bytes <$> reads).
Proof.
unfold readFrames.
assert (G : forall a, concat (asm_sent (foldl read_turn a reads))
                      ++ asm_frame (foldl read_turn a reads)
                      = (concat (asm_sent a) ++ asm_frame a) ++ concat (rd_bytes <$> reads)).
{ induction reads as [|r reads IH]; intros a; simpl; [rewrite app_nil_r; reflexivity|].
  rewrite IH, read_turn_bytes, <- app_assoc. reflexivity. }
rewrite G. reflexivity.
Qed.

Lemma flush_nonempty (a : Assembler) :
  (len (asm_frame a) >? 0) = true ->
  Forall (fun f => f <> []) (asm_sent a) ->
  Forall (fun f => f <> []) (asm_sent (flush a)).
Proof.
intros Hl Ha. unfold flush. simpl. apply Forall_app. split; [exact Ha|].
constructor; [|constructor]. intros E. rewrite E in Hl. discriminate.
Qed.

Lemma take_byte_nonempty (now : Z) (a : Assembler) (b : byte) :
  Forall (fun f => f <> []) (asm_sent a) ->
  Forall (fun f => f <> []) (asm_sent (take_byte now a b)).
Proof.
intros Ha. unfold take_byte.
destruct (now - asm_last a >=? interFrameGap); simpl; [|exact Ha].
destruct (len (asm_frame a) >? 0) eqn:Hl; simpl; [|exact Ha].
apply (flush_nonempty a Hl Ha).
Qed.

Lemma read_turn_nonempty (a : Assembler) (r : Read) :
  Forall (fun f => f <> []) (asm_sent a) ->
  Forall (fun f => f <> []) (asm_sent (read_turn a r)).
Proof.
intros Ha. unfold read_turn.
set (a1 := match rd_err r with Some e => _ | None => a end).
assert (Ha1 : Forall (fun f => f <> []) (asm_sent a1))
  by (subst a1; destruct (rd_err r); exact Ha).
clearbody a1. destruct (len (rd_bytes r) =? 0).
- destruct (len (asm_frame a1) >? 0) eqn:Hl; simpl; [|exact Ha1].
  destruct (rd_now r - asm_last a1 >=? interFrameGap); [|exact Ha1].
  apply (flush_nonempty a1 Hl Ha1).
- revert a1 Ha1. induction (rd_bytes r) as [|b bs IH]; intros a1 Ha1; simpl; [exact Ha1|].
  apply IH, take_byte_nonempty, Ha1.
Qed.

(** X13.  No empty frame is ever sent on the frame channel. *)
Theorem readFrames_no_empty_frame (start : Z) (reads : list Read) :
  Forall (fun f => f <> []) (asm_sent (readFrames start reads)).
Proof.
unfold readFrames.
assert (G : forall a, Forall (fun f => f <> []) (asm_sent a) ->
                      Forall (fun f => f <> []) (asm_sent (foldl read_turn a reads))).
{ induction reads as [|r reads IH]; intros a Ha; simpl; [exact Ha|].
  apply IH, read_turn_nonempty, Ha. }
apply G. constructor.
Qed.

Lemma take_bytes_same_read (now : Z) (bs : list byte) : forall a,
  asm_last a = now ->
  foldl (take_byte now) a bs = mkAsm (asm_frame a ++ bs) now (asm_sent a) (asm_errs a).
Proof.
induction bs as [|b bs IH]; intros a Hl; simpl.
- rewrite app_nil_r, <- Hl. destruct a; reflexivity.
- rewrite IH.
  + unfold take_byte. rewrite Hl, Z.sub_diag. simpl. rewrite <- app_assoc. reflexivity.
  + unfold take_byte. destruct (_ && _); reflexivity.
Qed.

(** X14.  The bytes of one [Read] are never split: a non-empty read
    either flushes the pending frame (when the gap has elapsed since
    the previous byte and the buffer is not empty) and becomes the new
    buffer whole, or is appended whole to the buffer. *)
Theorem read_is_never_split (a : Assembler) (r : Read) :
  rd_bytes r <> [] ->
  let gap := (rd_now r - asm_last a >=? interFrameGap) && (len (asm_frame a) >? 0) in
  asm_sent (read_turn a r) = (if gap then asm_sent a ++ [asm_frame a] else asm_sent a)
  /\ asm_frame (read_turn a r) = (if gap then rd_bytes r else asm_frame a ++ rd_bytes r)
  /\ asm_last (read_turn a r) = rd_now r.
Proof.
intros Hne gap. unfold read_turn.
destruct (rd_bytes r) as [|b bs] eqn:Hb; [congruence|].
change (len (b :: bs) =? 0) with false. cbv iota.
set (a1 := match rd_err r with Some e => _ | None => a end).
assert (E : asm_frame a1 = asm_frame a /\ asm_last a1 = asm_last a /\ asm_sent a1 = asm_sent a)
  by (subst a1; destruct (rd_err r); auto).
destruct E as (Ef & El & Es). clearbody a1.
simpl. rewrite take_bytes_same_read by (unfold take_byte; destruct (_ && _); reflexivity).
simpl. unfold take_byte. rewrite Ef, El. fold gap.
destruct gap; simpl; rewrite ?Ef, ?Es, <- ?app_assoc; auto.
Qed.

Lemma read_is_never_split_witness :
  let a := mkAsm (bytes [128; 84]) 0 [] [] in
  let r := mkRead (bytes [50; 44]) None 5000000 in
  let gap := (rd_now r - asm_last a >=? interFrameGap) && (len (asm_frame a) >? 0) in
  asm_sent (read_turn a r) = (if gap then asm_sent a ++ [asm_frame a] else asm_sent a)
  /\ asm_frame (read_turn a r) = (if gap then rd_bytes r else asm_frame a ++ rd_bytes r)
  /\ asm_last (read_turn a r) = rd_now r.
Proof.
intros a r. apply (read_is_never_split a r). vm_compute. discriminate.
Defined.

End Assembler.
(** ** J1587: start, stop and commands *)

Section Lifecycle.
Import j1587 obs.

(** X15.  Stopping is idempotent: on a running bus [StopReading]
    returns, a second call changes nothing, and a stopped bus refuses
    to send frames without touching the port. *)
Theorem StopReading_idempotent (s : Session) (data : list byte) (mid pid : byte) :
  isRunning (sess_bus s) = true -> stop_closed s = false ->
  exists s1, StopReading s = Ret s1
             /\ StopReading s1 = Ret s1
             /\ SendFrame mid pid data (sess_bus s1) =
                (sess_bus s1, match port (sess_bus s1) with
                              | None => Some ErrPortNil
                              | Some _ => Some ErrNotRunning
                              end).
Proof.
intros Hr Hc. unfold StopReading at 1. rewrite Hr, Hc. cbn [negb].
eexists. split; [reflexivity|]. split; [reflexivity|].
unfold SendFrame. cbn [sess_bus with_isRunning port isRunning].
destruct (port (sess_bus s)); reflexivity.
Qed.

(** X16.  A stopped bus can be started again, but not stopped again:
    [StopReading] clears the running flag and leaves the stop channel
    closed, so start, stop, start, stop ends in the panic of closing a
    closed channel. *)
Theorem restart_then_stop_panics (s : Session) (q : Port) :
  port (sess_bus s) = Some q -> isRunning (sess_bus s) = false -> stop_closed s = false ->
  exists s1 s2 s3,
    StartReading s = (s1, None)
    /\ StopReading s1 = Ret s2
    /\ StartReading s2 = (s3, None)
    /\ StopReading s3 = Panic.
Proof.
intros Hq Hr Hc. unfold StartReading at 1. rewrite Hr, Hq.
eexists _, _, _. split; [reflexivity|].
unfold StopReading at 1. cbn [sess_bus with_isRunning isRunning stop_closed negb]. rewrite Hc.
split; [reflexivity|].
unfold StartReading. cbn [sess_bus with_isRunning isRunning port]. rewrite Hq.
split; [reflexivity|]. reflexivity.
Qed.


Lemma StopReading_idempotent_witness :
  exists s1, StopReading (mkSession running_bus false) = Ret s1
             /\ StopReading s1 = Ret s1
             /\ SendFrame (z2b 128) (z2b 250) [] (sess_bus s1) =
                (sess_bus s1, match port (sess_bus s1) with
                              | None => Some ErrPortNil
                              | Some _ => Some ErrNotRunning
                              end).
Proof.
apply (StopReading_idempotent (mkSession running_bus false) [] (z2b 128) (z2b 250)); reflexivity.
Defined.

Lemma restart_then_stop_panics_witness :
  let s := mkSession (with_isRunning false running_bus) false in
  exists s1 s2 s3,
    StartReading s = (s1, None)
    /\ StopReading s1 = Ret s2
    /\ StartReading s2 = (s3, None)
    /\ StopReading s3 = Panic.
Proof.
intros s. apply (restart_then_stop_panics s (mkPort [] true)); reflexivity.
Defined.

End Lifecycle.

Section J1587_sink.
Import j1587 obs.

(** X17.  On the J1587 path a fault is published once: with a working
    store that has not seen it, the first record is handed to
    [PublishDTC]; a later record with the same code and FMI is not,
    whatever its MID, PID, occurrence count or time. *)
Theorem same_fault_published_once (dtc dtc' : DTCCode) (p : Bus) (c : MQTTClient)
    (d : bolt.DB) (b : bolt.Bucket) :
  db p = Some d -> holds d b ->
  b !! storage.key (uint32 (SPN dtc)) (uint8 (FMI dtc)) = None ->
  connected c = true ->
  uint32 (SPN dtc') = uint32 (SPN dtc) -> uint8 (FMI dtc') = uint8 (FMI dtc) ->
  exists p1 p2 c1,
    StartProcessingDTCs_recv dtc p c = Ret (p1, c1)
    /\ published c1 = published c ++ [dtc]
    /\ StartProcessingDTCs_recv dtc' p1 c1 = Ret (p2, c1).
Proof.
intros Hdb Hh Hk Hc Hs Hf. unfold StartProcessingDTCs_recv.
change (db (log (LogDTCReceived dtc) p)) with (db p). rewrite Hdb.
cbn [or_panic mbind outcome_bind].
rewrite (IsNew_first d b _ _ Hh Hk). cbn [mbind outcome_bind].
eexists _, _, _. split; [reflexivity|].
split; [unfold PublishDTC; rewrite Hc; reflexivity|].
cbn [db log with_db or_panic mbind outcome_bind]. rewrite Hs, Hf.
rewrite (IsNew_seen (record _ _ d b) (<[storage.key (uint32 (SPN dtc)) (uint8 (FMI dtc)) := [x01]]> b));
  [|apply record_holds|rewrite lookup_insert_eq; eauto].
cbn [mbind outcome_bind]. reflexivity.
Qed.

Lemma same_fault_published_once_witness :
  let dtc := mkDTC 128 194 7 2 0 100 in
  let dtc' := mkDTC 130 195 7 2 0 200 in
  let p := mkBus None ∅ true (make_chan 10) (Some new_db) [] [] in
  exists p1 p2 c1,
    StartProcessingDTCs_recv dtc p (mkMQTT true []) = Ret (p1, c1)
    /\ published c1 = published (mkMQTT true []) ++ [dtc]
    /\ StartProcessingDTCs_recv dtc' p1 c1 = Ret (p2, c1).
Proof.
intros dtc dtc' p.
apply (same_fault_published_once dtc dtc' p (mkMQTT true []) new_db ∅);
  [reflexivity|split; reflexivity|reflexivity|reflexivity|reflexivity|reflexivity].
Defined.

(** X18.  Whenever [ClearActiveDTCs] returns an error, nothing was
    written to the port and the store was not cleared. *)
Theorem failed_clear_changes_nothing (targetMID : byte) (p p' : Bus) (e : error) :
  ClearActiveDTCs targetMID p = Ret (p', Some e) ->
  db p' = db p /\ (wire <$> port p') = (wire <$> port p) /\ data p' = data p.
Proof.
unfold ClearActiveDTCs, SendFrame.
destruct (port p) as [q|] eqn:Hq; [|intros [= <- _]; rewrite Hq; repeat split; reflexivity].
destruct (isRunning p); cbn [negb];
  [|intros [= <- _]; rewrite Hq; repeat split; reflexivity].
unfold Write. destruct (healthy q) eqn:Hh.
- cbn [log with_port db]. destruct (db p) as [d|]; [|intros [= _ ?]; discriminate].
  destruct (storage.ClearAll d) as [[d' [e'|]]| | |]; cbn [mbind outcome_bind];
    intros H; discriminate H.
- intros [= <- _]. cbn [with_port log db port data]. repeat split; reflexivity.
Qed.

Lemma failed_clear_changes_nothing_witness :
  let p := mkBus (Some (mkPort [] false)) ∅ true (make_chan 10) (Some new_db) [] [] in
  exists p', ClearActiveDTCs (z2b 128) p = Ret (p', Some (ErrWrap (ErrWrap ErrWrite)))
             /\ db p' = db p /\ (wire <$> port p') = (wire <$> port p) /\ data p' = data p.
Proof.
intros p. eexists. split; [reflexivity|].
eapply (failed_clear_changes_nothing (z2b 128) p _ (ErrWrap (ErrWrap ErrWrite))). reflexivity.
Defined.

(** X19.  On a running bus with a working port and an open store,
    [ClearActiveDTCs] writes the frame target, 250, checksum and
    reports success; the next record received by
    [StartProcessingDTCs] then panics in [IsNew], the bucket being
    gone. *)
Theorem clear_then_dtc_panics (targetMID : byte) (p : Bus) (q : Port) (d : bolt.DB)
    (dtc : DTCCode) (c : MQTTClient) :
  port p = Some q -> healthy q = true -> isRunning p = true ->
  db p = Some d -> bolt.opened d = true ->
  exists p', ClearActiveDTCs targetMID p = Ret (p', None)
             /\ (wire <$> port p')
                = Some (wire q ++ [frameWithChecksum targetMID (z2b PID_COMMAND_CLEAR_DTCS) []])
             /\ StartProcessingDTCs_recv dtc p' c = Panic.
Proof.
intros Hq Hh Hr Hd Ho.
destruct (ClearAll_drops_bucket d Ho) as (d' & err & E & Ho' & Hb').
unfold ClearActiveDTCs, SendFrame, Write. rewrite Hq, Hr, Hh. cbn [negb log with_port db].
rewrite Hd, E. cbn [mbind outcome_bind].
assert (G : forall m, exists p', Ret (log m (with_db d'
              (log LogClearingStore (log (LogClearSent targetMID)
                 (with_port (mkPort (wire q ++ [[targetMID] ++ [z2b PID_COMMAND_CLEAR_DTCS] ++ []
                     ++ [calculateJ1587Checksum ([targetMID] ++ [z2b PID_COMMAND_CLEAR_DTCS] ++ [])]]) true)
                    (log (LogSending targetMID (z2b PID_COMMAND_CLEAR_DTCS) []
                       (calculateJ1587Checksum ([targetMID] ++ [z2b PID_COMMAND_CLEAR_DTCS] ++ []))) p))))), None)
             = Ret (p', @None error)
             /\ (wire <$> port p')
                = Some (wire q ++ [frameWithChecksum targetMID (z2b PID_COMMAND_CLEAR_DTCS) []])
             /\ StartProcessingDTCs_recv dtc p' c = Panic).
{ intros m. eexists. split; [reflexivity|]. split; [reflexivity|].
  unfold StartProcessingDTCs_recv. cbn [db log with_db or_panic mbind outcome_bind].
  rewrite (IsNew_no_bucket d' _ _ Ho' Hb'). reflexivity. }
destruct err; apply G.
Qed.

Lemma clear_then_dtc_panics_witness :
  exists p', ClearActiveDTCs (z2b 128) running_bus = Ret (p', None)
             /\ (wire <$> port p')
                = Some (wire (mkPort [] true) ++ [frameWithChecksum (z2b 128) (z2b PID_COMMAND_CLEAR_DTCS) []])
             /\ StartProcessingDTCs_recv (mkDTC 128 194 7 2 0 0) p' (mkMQTT true []) = Panic.
Proof.
apply (clear_then_dtc_panics (z2b 128) running_bus (mkPort [] true) new_db
         (mkDTC 128 194 7 2 0 0) (mkMQTT true [])); reflexivity.
Defined.

(** X20.  The command clear_dtc sends the clear frame to the target
    MID it names, to MID 128 when it names none, and succeeds even
    when the store has no bucket left to delete. *)
Theorem clear_dtc_command_addresses_target (bus : Bus) (q : Port)
    (target : option byte) (spn fmi : option Z) :
  port bus = Some q -> healthy q = true -> isRunning bus = true ->
  (forall d, db bus = Some d -> bolt.opened d = true) ->
  exists bus',
    handleMQTTCommand bus (mkCommand "clear_dtc" (mkParams target spn fmi)) = Ret (bus', None)
    /\ (wire <$> port bus')
       = Some (wire q ++ [frameWithChecksum (default (z2b 128) target)
                            (z2b PID_COMMAND_CLEAR_DTCS) []]).
Proof.
intros Hq Hh Hr Hd. unfold handleMQTTCommand.
change (String.eqb (Type_ (mkCommand "clear_dtc" (mkParams target spn fmi))) "clear_dtc") with true.
cbv iota. cbn [Params TargetMID].
set (t := match target with Some t => t | None => z2b 128 end).
replace (default (z2b 128) target) with t by (subst t; destruct target; reflexivity).
unfold ClearActiveDTCs, SendFrame, Write.
cbn [port log isRunning]. rewrite Hq, Hr, Hh. cbn [negb log with_port db].
destruct (db bus) as [d|] eqn:Hdb.
- destruct (ClearAll_drops_bucket d (Hd d eq_refl)) as (d' & err & E & _).
  rewrite E. cbn [mbind outcome_bind].
  destruct err; cbn [mbind outcome_bind]; eexists; split; reflexivity.
- cbn [mbind outcome_bind]. eexists; split; reflexivity.
Qed.

Lemma clear_dtc_command_addresses_target_witness :
  exists bus',
    handleMQTTCommand running_bus (mkCommand "clear_dtc" (mkParams (Some (z2b 130)) None None))
      = Ret (bus', None)
    /\ (wire <$> port bus')
       = Some (wire (mkPort [] true) ++ [frameWithChecksum (default (z2b 128) (Some (z2b 130)))
                            (z2b PID_COMMAND_CLEAR_DTCS) []]).
Proof.
apply (clear_dtc_command_addresses_target running_bus (mkPort [] true) (Some (z2b 130)) None None);
  try reflexivity.
intros d [= <-]. reflexivity.
Defined.

End J1587_sink.

(** ** The metric table: reads, writes and serialisation *)

Section Table.
Import pd obs.

(** X21.  [Set] then [Get]: the key reads back the value just written,
    every other key of the table reads as before (absent keys as
    absent), and no other map of the heap changes. *)
Theorem Set_then_Get (p : ProtectedData) (h : heap) (m : gmap string any)
    (key : string) (value : any) :
  h !! Data p = Some m ->
  exists h', Set_ p key value h = Ret h'
             /\ Get p key h' = Ret (Some value)
             /\ (forall k, k <> key -> Get p k h' = Ret (m !! k))
             /\ (forall l, l <> Data p -> h' !! l = h !! l).
Proof.
intros Hp. unfold Set_. rewrite (map_assign_spec _ key value h m Hp).
eexists. split; [reflexivity|]. unfold Get. rewrite lookup_insert_eq. simpl.
split; [rewrite lookup_insert_eq; reflexivity|]. split.
- intros k Hk. rewrite lookup_insert_ne by congruence. reflexivity.
- intros l Hl. apply lookup_insert_ne. congruence.
Qed.

Lemma Set_then_Get_witness :
  let h : heap := {[ 1%positive := {[ "Speed" := AFloat 50 ]} ]} in
  exists h', Set_ (mkPD 1) "EngineRPM" ANil h = Ret h'
             /\ Get (mkPD 1) "EngineRPM" h' = Ret (Some ANil)
             /\ (forall k, k <> "EngineRPM" ->
                   Get (mkPD 1) k h' = Ret (({[ "Speed" := AFloat 50 ]} : gmap string any) !! k))
             /\ (forall l, l <> Data (mkPD 1) -> h' !! l = h !! l).
Proof.
intros h. apply (Set_then_Get (mkPD 1) h {[ "Speed" := AFloat 50 ]} "EngineRPM" ANil).
reflexivity.
Defined.

Lemma dataToMarshal_frame (src : loc) (now : string) (h : heap) (m : gmap string any) :
  h !! src = Some m ->
  exists h', dataToMarshal src now h = Ret (<["timestamp" := AString now]> m, h')
             /\ forall l, is_Some (h !! l) -> h' !! l = h !! l.
Proof.
intros Hs. destruct (make_map_spec h) as [Hfresh Hmk].
assert (Hne : fresh (dom h) <> src) by congruence.
unfold dataToMarshal. rewrite Hmk.
rewrite (range_copy_spec src (fresh (dom h)) _ m ∅);
  [| rewrite lookup_insert_ne by exact Hne; exact Hs | apply lookup_insert_eq].
simpl.
rewrite (map_assign_spec _ _ _ _ (m ∪ ∅)) by apply lookup_insert_eq.
simpl. rewrite lookup_insert_eq. simpl.
rewrite (right_id_L ∅ (∪)).
eexists. split; [reflexivity|].
intros l [x Hl]. rewrite !lookup_insert_ne by congruence. reflexivity.
Qed.

(** X22.  [MarshalJSON] of the live table hands [json.Marshal] the
    table's pairs with timestamp bound to the time of serialisation and
    writes nothing back: the table, and every map that existed, is as
    before. *)
Theorem MarshalJSON_leaves_table (json_Marshal : gmap string any -> list byte * option error)
    (p : ProtectedData) (now : string) (h : heap) (m : gmap string any) :
  h !! Data p = Some m ->
  exists h', MarshalJSON json_Marshal p now h
             = Ret (json_Marshal (<["timestamp" := AString now]> m), h')
             /\ forall l, is_Some (h !! l) -> h' !! l = h !! l.
Proof.
intros Hp. destruct (dataToMarshal_frame (Data p) now h m Hp) as (h' & E & Hf).
exists h'. split; [|exact Hf]. unfold MarshalJSON. rewrite E. reflexivity.
Qed.

Lemma MarshalJSON_leaves_table_witness :
  let h : heap := {[ 1%positive := {[ "Speed" := AFloat 50 ]} ]} in
  exists h', MarshalJSON (fun _ => ([], None)) (mkPD 1) "t" h
             = Ret ((fun _ => ([], None)) (<["timestamp" := AString "t"]> ({[ "Speed" := AFloat 50 ]} : gmap string any)), h')
             /\ forall l, is_Some (h !! l) -> h' !! l = h !! l.
Proof.
intros h. apply (MarshalJSON_leaves_table (fun _ => ([], None)) (mkPD 1) "t" h
                   {[ "Speed" := AFloat 50 ]}). reflexivity.
Defined.

(** X23.  A snapshot taken by [Copy] and the live table serialise to
    the same bytes at the same instant; the snapshot is a map of its
    own and [Copy] changes no existing map. *)
Theorem snapshot_serialises_like_table (json_Marshal : gmap string any -> list byte * option error)
    (p : ProtectedData) (now : string) (h : heap) (m : gmap string any) :
  h !! Data p = Some m ->
  exists c h1 h2 h3 out,
    Copy p h = Ret (c, h1)
    /\ copied_MarshalJSON json_Marshal c now h1 = Ret (out, h2)
    /\ MarshalJSON json_Marshal p now h = Ret (out, h3)
    /\ data c <> Data p
    /\ forall l, is_Some (h !! l) -> h1 !! l = h !! l.
Proof.
intros Hp. destruct (Copy_spec p h m Hp) as (c & HC & Hfresh).
assert (Hne : data c <> Data p) by congruence.
destruct (dataToMarshal_frame (data c) now (<[data c := m]> h) m) as (h2 & E2 & _);
  [apply lookup_insert_eq|].
destruct (dataToMarshal_frame (Data p) now h m Hp) as (h3 & E3 & _).
exists c, (<[data c := m]> h), h2, h3, (json_Marshal (<["timestamp" := AString now]> m)).
split; [exact HC|].
split; [unfold copied_MarshalJSON; rewrite E2; reflexivity|].
split; [unfold MarshalJSON; rewrite E3; reflexivity|].
split; [exact Hne|].
intros l [x Hl]. apply lookup_insert_ne. congruence.
Qed.


Lemma snapshot_serialises_like_table_witness :
  let h : heap := {[ 1%positive := {[ "Speed" := AFloat 50 ]} ]} in
  exists c h1 h2 h3 out,
    Copy (mkPD 1) h = Ret (c, h1)
    /\ copied_MarshalJSON (fun _ => ([], None)) c "t" h1 = Ret (out, h2)
    /\ MarshalJSON (fun _ => ([], None)) (mkPD 1) "t" h = Ret (out, h3)
    /\ data c <> Data (mkPD 1)
    /\ forall l, is_Some (h !! l) -> h1 !! l = h !! l.
Proof.
intros h. apply (snapshot_serialises_like_table (fun _ => ([], None)) (mkPD 1) "t" h
                   {[ "Speed" := AFloat 50 ]}). reflexivity.
Defined.

End Table.
(** ** J1939: metric decoding *)

Section J1939_values.
Import j1939 obs.

Lemma little_endian_16 (d0 d1 : byte) :
  Z.lor (uint16 (b2z d0)) (uint16 (Z.shiftl (uint16 (b2z d1)) 8)) = b2z d0 + 256 * b2z d1.
Proof.
pose proof (b2z_range d0). pose proof (b2z_range d1).
unfold uint16. rewrite (Z.mod_small (b2z d0)), (Z.mod_small (b2z d1)) by lia.
rewrite Z.shiftl_mul_pow2 by lia. rewrite Z.mod_small by lia.
rewrite (lor_add_mul_pow2 (b2z d1) (b2z d0) 8) by lia. lia.
Qed.

Lemma little_endian_32 (d0 d1 d2 d3 : byte) :
  Z.lor (Z.lor (Z.lor (uint32 (b2z d0)) (uint32 (Z.shiftl (uint32 (b2z d1)) 8)))
               (uint32 (Z.shiftl (uint32 (b2z d2)) 16)))
        (uint32 (Z.shiftl (uint32 (b2z d3)) 24))
  = b2z d0 + 2 ^ 8 * b2z d1 + 2 ^ 16 * b2z d2 + 2 ^ 24 * b2z d3.
Proof.
pose proof (b2z_range d0). pose proof (b2z_range d1).
pose proof (b2z_range d2). pose proof (b2z_range d3).
unfold uint32.
rewrite (Z.mod_small (b2z d0)), (Z.mod_small (b2z d1)),
        (Z.mod_small (b2z d2)), (Z.mod_small (b2z d3)) by lia.
rewrite !Z.shiftl_mul_pow2 by lia. rewrite !Z.mod_small by lia.
rewrite (lor_add_mul_pow2 (b2z d1) (b2z d0) 8) by lia.
rewrite (lor_add_mul_pow2 (b2z d2) _ 16) by lia.
rewrite (lor_add_mul_pow2 (b2z d3) _ 24) by lia.
lia.
Qed.

Lemma parseEEC1_spec (d0 d1 d2 d3 d4 : byte) (rest : list byte) (fp : FrameProcessor) :
  let fp' := parseEEC1 (d0 :: d1 :: d2 :: d3 :: d4 :: rest) fp in
  data fp' =
    <["EngineLoad" := if b2z d2 =? 255 then ANil
                      else AFloat (float64 (b2z d2) - 125)%float]>
      (<["EngineRPM" := if (b2z d3 =? 255) && (b2z d4 =? 255) then ANil
                        else AFloat (float64 (b2z d3 + 256 * b2z d4) * 0.125)%float]>
         (data fp))
  /\ dtcChan fp' = dtcChan fp /\ db fp' = db fp /\ logs fp' = logs fp /\ clock fp' = clock fp.
Proof.
intros fp'. subst fp'. unfold parseEEC1. rewrite little_endian_16.
change 0xFF with 255.
destruct (b2z d3 =? 255), (b2z d4 =? 255), (b2z d2 =? 255); simpl; auto.
Qed.

Lemma LittleEndian_Uint16_value (d0 d1 : byte) :
  LittleEndian_Uint16 [d0; d1] = Ret (b2z d0 + 256 * b2z d1).
Proof. unfold LittleEndian_Uint16. simpl. rewrite little_endian_16. reflexivity. Qed.

Lemma LittleEndian_Uint32_value (d0 d1 d2 d3 : byte) :
  LittleEndian_Uint32 [d0; d1; d2; d3]
  = Ret (b2z d0 + 2 ^ 8 * b2z d1 + 2 ^ 16 * b2z d2 + 2 ^ 24 * b2z d3).
Proof. unfold LittleEndian_Uint32. simpl. rewrite little_endian_32. reflexivity. Qed.

Lemma parseAmbient_Fuel_spec (d0 d1 : byte) (rest : list byte) (fp : FrameProcessor) :
  parseAmbientConditions (d0 :: d1 :: rest) fp =
    Ret (Set_ "AmbientAirTemp"
           (if (b2z d0 =? 255) && (b2z d1 =? 255) then ANil
            else AFloat (float64 (b2z d0 + 256 * b2z d1) * 0.03125 - 273)%float) fp)
  /\ parseFuelConsumption (d0 :: d1 :: rest) fp =
    Ret (Set_ "FuelConsumption"
           (if (b2z d0 =? 255) && (b2z d1 =? 255) then ANil
            else AFloat (float64 (b2z d0 + 256 * b2z d1) * 0.05)%float) fp).
Proof.
unfold parseAmbientConditions, parseFuelConsumption. change 0xFF with 255.
assert (Hs : slice (d0 :: d1 :: rest) 0 2 = Ret [d0; d1]).
{ rewrite slice_in_range; [reflexivity|lia|]. rewrite !len_cons. pose proof (len_nonneg rest). lia. }
rewrite Hs. cbn [mbind outcome_bind]. rewrite LittleEndian_Uint16_value. cbn [mbind outcome_bind].
destruct (b2z d0 =? 255), (b2z d1 =? 255); simpl; auto.
Qed.

Lemma parseVehiclePosition_spec (d0 d1 d2 d3 d4 d5 d6 d7 : byte) (rest : list byte)
    (fp : FrameProcessor) :
  let coord (a b c d : byte) :=
    if (b2z a =? 255) && (b2z b =? 255) && (b2z c =? 255) && (b2z d =? 255) then ANil
    else AFloat (float64 (int32 (b2z a + 2 ^ 8 * b2z b + 2 ^ 16 * b2z c + 2 ^ 24 * b2z d))
                 * 1e-7)%float in
  parseVehiclePosition (d0 :: d1 :: d2 :: d3 :: d4 :: d5 :: d6 :: d7 :: rest) fp =
    Ret (Set_ "Longitude" (coord d4 d5 d6 d7) (Set_ "Latitude" (coord d0 d1 d2 d3) fp)).
Proof.
intros coord. subst coord. unfold parseVehiclePosition. change 0xFF with 255.
set (data := d0 :: d1 :: d2 :: d3 :: d4 :: d5 :: d6 :: d7 :: rest).
assert (Hlen : 8 <= len data)
  by (subst data; rewrite !len_cons; pose proof (len_nonneg rest); lia).
assert (Hs1 : slice data 0 4 = Ret [d0; d1; d2; d3])
  by (rewrite slice_in_range by lia; reflexivity).
assert (Hs2 : slice data 4 8 = Ret [d4; d5; d6; d7])
  by (rewrite slice_in_range by lia; reflexivity).
rewrite Hs1, Hs2. cbn [mbind outcome_bind]. rewrite !LittleEndian_Uint32_value.
destruct ((b2z d0 =? 255) && (b2z d1 =? 255) && (b2z d2 =? 255) && (b2z d3 =? 255));
  destruct ((b2z d4 =? 255) && (b2z d5 =? 255) && (b2z d6 =? 255) && (b2z d7 =? 255));
  reflexivity.
Qed.

Lemma int32_signed (x : Z) :
  0 <= x < 2 ^ 32 -> - 2 ^ 31 <= int32 x < 2 ^ 31 /\ (int32 x - x) mod 2 ^ 32 = 0.
Proof.
intros Hx. unfold int32, uint32. rewrite Z.mod_small by lia.
destruct (Z.ltb_spec x (2 ^ 31)).
- split; [lia|]. rewrite Z.sub_diag. reflexivity.
- split; [lia|]. replace (x - 2 ^ 32 - x) with (-1 * 2 ^ 32) by lia.
  apply Z.mod_mul. lia.
Qed.


(** X24.  EEC1 with at least five bytes: engine speed is the
    little-endian number in bytes 3 and 4 times 0.125 and is cleared
    only when both bytes are 0xFF; torque is byte 2 minus 125 and is
    cleared when byte 2 is 0xFF; nothing but these two metrics changes. *)
Theorem eec1_decoding (d0 d1 d2 d3 d4 : byte) (rest : list byte) (fp : FrameProcessor) :
  let fp' := parseEEC1 (d0 :: d1 :: d2 :: d3 :: d4 :: rest) fp in
  data fp' =
    <["EngineLoad" := if b2z d2 =? 255 then ANil
                      else AFloat (float64 (b2z d2) - 125)%float]>
      (<["EngineRPM" := if (b2z d3 =? 255) && (b2z d4 =? 255) then ANil
                        else AFloat (float64 (b2z d3 + 256 * b2z d4) * 0.125)%float]>
         (data fp))
  /\ dtcChan fp' = dtcChan fp /\ db fp' = db fp /\ logs fp' = logs fp /\ clock fp' = clock fp.
Proof. apply parseEEC1_spec. Qed.

(** X25.  Vehicle position with at least eight bytes: each coordinate is
    the little-endian 32-bit number of its four bytes read as a signed
    integer, times 1e-7, and is cleared when its four bytes are all
    0xFF; the function returns (no slice or read is out of range). *)
Theorem position_decoding (d0 d1 d2 d3 d4 d5 d6 d7 : byte) (rest : list byte)
    (fp : FrameProcessor) :
  let coord (a b c d : byte) :=
    if (b2z a =? 255) && (b2z b =? 255) && (b2z c =? 255) && (b2z d =? 255) then ANil
    else AFloat (float64 (int32 (b2z a + 2 ^ 8 * b2z b + 2 ^ 16 * b2z c + 2 ^ 24 * b2z d))
                 * 1e-7)%float in
  parseVehiclePosition (d0 :: d1 :: d2 :: d3 :: d4 :: d5 :: d6 :: d7 :: rest) fp =
    Ret (Set_ "Longitude" (coord d4 d5 d6 d7) (Set_ "Latitude" (coord d0 d1 d2 d3) fp)).
Proof. apply parseVehiclePosition_spec. Qed.

(** X30.  Ambient temperature and fuel rate with at least two bytes:
    both read the little-endian number d0 + 256 * d1, scale it (0.03125
    per bit minus 273, and 0.05 per bit), and clear the metric only
    when both bytes are 0xFF. *)
Theorem ambient_and_fuel_decoding (d0 d1 : byte) (rest : list byte) (fp : FrameProcessor) :
  parseAmbientConditions (d0 :: d1 :: rest) fp =
    Ret (Set_ "AmbientAirTemp"
           (if (b2z d0 =? 255) && (b2z d1 =? 255) then ANil
            else AFloat (float64 (b2z d0 + 256 * b2z d1) * 0.03125 - 273)%float) fp)
  /\ parseFuelConsumption (d0 :: d1 :: rest) fp =
    Ret (Set_ "FuelConsumption"
           (if (b2z d0 =? 255) && (b2z d1 =? 255) then ANil
            else AFloat (float64 (b2z d0 + 256 * b2z d1) * 0.05)%float) fp).
Proof. apply parseAmbient_Fuel_spec. Qed.

Lemma metric_parsers_frame (pgn : Z) (sa : Z) (data : list byte) (fp : FrameProcessor) :
  (pgn =? pgnDM1) = false -> (pgn =? pgnDM2) = false ->
  exists fp', ProcessFrame pgn sa data fp = Ret fp'
              /\ dtcChan fp' = dtcChan fp /\ db fp' = db fp
              /\ logs fp' = logs fp /\ clock fp' = clock fp
              /\ ((pgn =? pgnEEC1) || (pgn =? pgnGPS) || (pgn =? pgnLFE) || (pgn =? pgnAmb) = false
                  -> fp' = fp).
Proof.
intros H1 H2. unfold ProcessFrame. rewrite H1, H2.
destruct (pgn =? pgnEEC1).
{ eexists. split; [reflexivity|]. unfold parseEEC1.
  repeat (case_match; try (repeat split; (reflexivity || discriminate))). }
destruct (pgn =? pgnGPS).
{ destruct data as [|d0 [|d1 [|d2 [|d3 [|d4 [|d5 [|d6 [|d7 rest]]]]]]]];
    try (eexists; split; [reflexivity|]; repeat split; (reflexivity || discriminate)).
  rewrite parseVehiclePosition_spec.
  eexists; split; [reflexivity|]; repeat split; (reflexivity || discriminate). }
destruct (pgn =? pgnLFE).
{ destruct data as [|d0 [|d1 rest]];
    try (eexists; split; [reflexivity|]; repeat split; (reflexivity || discriminate)).
  rewrite (proj2 (parseAmbient_Fuel_spec d0 d1 rest fp)).
  eexists; split; [reflexivity|]; repeat split; (reflexivity || discriminate). }
destruct (pgn =? pgnAmb).
{ destruct data as [|d0 [|d1 rest]];
    try (eexists; split; [reflexivity|]; repeat split; (reflexivity || discriminate)).
  rewrite (proj1 (parseAmbient_Fuel_spec d0 d1 rest fp)).
  eexists; split; [reflexivity|]; repeat split; (reflexivity || discriminate). }
exists fp. repeat split; reflexivity.
Qed.

(** X26.  [ProcessFrame] on any PGN other than DM1 and DM2 returns and
    stays off the DTC path: channel, store, log and clock are as
    before; on a PGN it does not handle at all, the processor is
    unchanged. *)
Theorem metric_pgns_leave_dtc_path (pgn : Z) (sa : Z) (data : list byte)
    (fp : FrameProcessor) :
  pgn <> pgnDM1 -> pgn <> pgnDM2 ->
  exists fp', ProcessFrame pgn sa data fp = Ret fp'
              /\ dtcChan fp' = dtcChan fp /\ db fp' = db fp
              /\ logs fp' = logs fp /\ clock fp' = clock fp
              /\ (pgn <> pgnEEC1 -> pgn <> pgnGPS -> pgn <> pgnLFE -> pgn <> pgnAmb ->
                  fp' = fp).
Proof.
intros H1 H2.
destruct (metric_parsers_frame pgn sa data fp) as (fp' & E & A & B & C & D & F);
  [apply Z.eqb_neq; exact H1 | apply Z.eqb_neq; exact H2 |].
exists fp'. repeat split; try assumption.
intros N1 N2 N3 N4. apply F.
apply Z.eqb_neq in N1, N2, N3, N4. rewrite N1, N2, N3, N4. reflexivity.
Qed.

Lemma metric_pgns_leave_dtc_path_witness :
  exists fp', ProcessFrame 0xFEE4 0 eec1_payload (new_processor None) = Ret fp'
              /\ dtcChan fp' = dtcChan (new_processor None)
              /\ db fp' = db (new_processor None)
              /\ logs fp' = logs (new_processor None)
              /\ clock fp' = clock (new_processor None)
              /\ (0xFEE4 <> pgnEEC1 -> 0xFEE4 <> pgnGPS -> 0xFEE4 <> pgnLFE -> 0xFEE4 <> pgnAmb ->
                  fp' = new_processor None).
Proof.
apply (metric_pgns_leave_dtc_path 0xFEE4 0 eec1_payload (new_processor None)); discriminate.
Defined.

End J1939_values.

(** ** J1939: diagnostic messages *)

Section J1939_dm.
Import j1939 obs aux.

Lemma dtc_entry_value (data : list byte) (offset : Z) (e0 e1 e2 e3 : byte) :
  0 <= offset ->
  data !! Z.to_nat offset = Some e0 ->
  data !! Z.to_nat (offset + 1) = Some e1 ->
  data !! Z.to_nat (offset + 2) = Some e2 ->
  data !! Z.to_nat (offset + 3) = Some e3 ->
  dtc_entry data offset
  = Ret (b2z e0 + 256 * b2z e1 + 65536 * (b2z e2 / 32), b2z e2 mod 32, b2z e3 mod 128).
Proof.
intros Ho H0 H1 H2 H3.
assert (Hi : forall k e, 0 <= k -> data !! Z.to_nat k = Some e -> index data k = Ret e).
{ intros k e Hk He. destruct (index_in_range data k) as (x & -> & Hx); [|congruence].
  apply lookup_lt_Some in He. unfold len. lia. }
unfold dtc_entry.
rewrite (Hi offset e0 Ho H0), (Hi (offset + 1) e1 ltac:(lia) H1),
  (Hi (offset + 2) e2 ltac:(lia) H2), (Hi (offset + 3) e3 ltac:(lia) H3).
cbn [mbind outcome_bind].
pose proof (b2z_range e0). pose proof (b2z_range e1).
pose proof (b2z_range e2). pose proof (b2z_range e3).
rewrite land_31. change 0x7F with 127. rewrite land_127.
rewrite Z.shiftr_div_pow2 by lia. change (2 ^ 5) with 32.
assert (0 <= b2z e2 / 32 < 8) by (split; [apply Z.div_pos; lia|apply Z.div_lt_upper_bound; lia]).
assert (0 <= b2z e2 mod 32 < 32) by (apply Z.mod_pos_bound; lia).
unfold uint8, uint16, uint32.
rewrite (Z.mod_small (b2z e0) (2 ^ 16)), (Z.mod_small (b2z e1) (2 ^ 16)) by lia.
rewrite (Z.mod_small (b2z e2 / 32) (2 ^ 8)), (Z.mod_small (b2z e2 mod 32) (2 ^ 8)) by lia.
rewrite (Z.mod_small (b2z e0) (2 ^ 32)), (Z.mod_small (b2z e1) (2 ^ 32)),
        (Z.mod_small (b2z e2 / 32) (2 ^ 32)) by lia.
rewrite !Z.shiftl_mul_pow2 by lia. rewrite !Z.mod_small by lia.
rewrite (lor_add_mul_pow2 (b2z e1) (b2z e0) 8) by lia.
rewrite (lor_add_mul_pow2 (b2z e2 / 32) _ 16) by lia.
do 2 f_equal. f_equal. lia.
Qed.

Lemma dtc_entry_in_range (data : list byte) (offset : Z) :
  0 <= offset -> offset + 3 < len data ->
  exists spn fmi oc, dtc_entry data offset = Ret (spn, fmi, oc)
                     /\ 0 <= spn < 2 ^ 19 /\ 0 <= fmi < 32 /\ 0 <= oc < 128.
Proof.
intros Ho Hl.
destruct (index_in_range data offset) as (e0 & _ & H0); [lia|].
destruct (index_in_range data (offset + 1)) as (e1 & _ & H1); [lia|].
destruct (index_in_range data (offset + 2)) as (e2 & _ & H2); [lia|].
destruct (index_in_range data (offset + 3)) as (e3 & _ & H3); [lia|].
rewrite (dtc_entry_value data offset e0 e1 e2 e3) by assumption.
pose proof (b2z_range e0). pose proof (b2z_range e1).
pose proof (b2z_range e2). pose proof (b2z_range e3).
assert (0 <= b2z e2 / 32 < 8) by (split; [apply Z.div_pos; lia|apply Z.div_lt_upper_bound; lia]).
assert (0 <= b2z e2 mod 32 < 32) by (apply Z.mod_pos_bound; lia).
assert (0 <= b2z e3 mod 128 < 128) by (apply Z.mod_pos_bound; lia).
eexists _, _, _. split; [reflexivity|]. lia.
Qed.

Lemma parseDM2_loop_S (n : nat) (i : Z) (data : list byte) (sa : Z) (fp : FrameProcessor) :
  parseDM2_loop (S n) i data sa fp =
  if 2 + i * 4 + 3 >=? len data then Ret fp
  else
    '(spn, fmi, oc) ← dtc_entry data (2 + i * 4);
    fp ← send_dtc (mkDTC sa 0 spn fmi oc (hd 0 (clock fp))) (with_clock (tl (clock fp)) fp);
    parseDM2_loop n (i + 1) data sa fp.
Proof. reflexivity. Qed.

Lemma parseDM2_loop_room (data : list byte) (sa : Z) (n : nat) : forall i fp,
  0 <= i -> 2 + (i + Z.of_nat n) * 4 <= len data ->
  (length (buf (dtcChan fp)) + n <= cap (dtcChan fp))%nat ->
  exists fp' recs,
    parseDM2_loop n i data sa fp = Ret fp'
    /\ buf (dtcChan fp') = buf (dtcChan fp) ++ recs
    /\ length recs = n
    /\ Forall (dm_record sa) recs
    /\ (forall (k : nat) d, recs !! k = Some d ->
          dtc_entry data (2 + (i + Z.of_nat k) * 4) = Ret (SPN d, FMI d, OC d))
    /\ j1939.data fp' = j1939.data fp /\ db fp' = db fp /\ logs fp' = logs fp.
Proof.
induction n as [|n IH]; intros i fp Hi Hlen Hroom.
- exists fp, []. simpl. rewrite app_nil_r. repeat split; auto. intros k d Hk. discriminate.
- rewrite parseDM2_loop_S.
  destruct (Z.geb_spec (2 + i * 4 + 3) (len data)); [lia|].
  destruct (dtc_entry_in_range data (2 + i * 4)) as (spn & fmi & oc & E & Hspn & Hfmi & Hoc);
    [lia|lia|].
  rewrite E. cbn [mbind outcome_bind].
  unfold send_dtc. cbn [dtcChan with_clock].
  assert (Hfull : chan_full (dtcChan fp) = false)
    by (unfold chan_full; apply Nat.leb_gt; lia).
  rewrite Hfull. cbn [mbind outcome_bind].
  pose (d0 := mkDTC sa 0 spn fmi oc (hd 0 (clock fp))).
  set (fp1 := with_dtcChan _ _).
  destruct (IH (i + 1) fp1) as (fp' & recs & Hrun & Hbuf & Hn & Hall & Hk & Hd & Hdb & Hlog).
  { lia. }
  { lia. }
  { subst fp1. simpl. rewrite length_app. simpl. lia. }
  exists fp', (d0 :: recs). split; [exact Hrun|].
  split; [rewrite Hbuf; subst fp1; simpl; rewrite <- app_assoc; reflexivity|].
  split; [simpl; congruence|].
  split; [constructor; [subst d0; unfold dm_record; simpl; auto|exact Hall]|].
  split; [|auto].
  intros [|k] d Hd'.
  + simpl in Hd'. injection Hd' as <-. subst d0. simpl.
    replace (2 + (i + Z.of_nat 0) * 4) with (2 + i * 4) by lia. exact E.
  + simpl in Hd'. rewrite <- (Hk k d Hd'). f_equal. lia.
Qed.

Lemma parseDM2_loop_full (data : list byte) (sa : Z) (n : nat) : forall i fp,
  0 <= i -> 2 + (i + Z.of_nat n) * 4 <= len data ->
  (cap (dtcChan fp) < length (buf (dtcChan fp)) + n)%nat ->
  (length (buf (dtcChan fp)) <= cap (dtcChan fp))%nat ->
  parseDM2_loop n i data sa fp = Block.
Proof.
induction n as [|n IH]; intros i fp Hi Hlen Hover Hinv; [lia|].
rewrite parseDM2_loop_S.
destruct (Z.geb_spec (2 + i * 4 + 3) (len data)); [lia|].
destruct (dtc_entry_in_range data (2 + i * 4)) as (spn & fmi & oc & E & _); [lia|lia|].
rewrite E. cbn [mbind outcome_bind].
unfold send_dtc. cbn [dtcChan with_clock].
destruct (chan_full (dtcChan fp)) eqn:Hfull; [reflexivity|].
cbn [mbind outcome_bind]. apply Nat.leb_gt in Hfull.
apply IH; [lia|lia| |]; simpl; rewrite length_app; simpl; lia.
Qed.

(** X27.  [parseDM2] on a payload of at least six bytes, with n its
    number of complete 4-byte entries: when the channel has room for n
    records it sends exactly n, in order, the k-th decoded from the
    entry at offset 2 + 4k, each with the source address as MID and its
    fields inside their bit widths, and never reads out of range; when
    the channel has room for fewer, it parks on the send. *)
Theorem parseDM2_emits_every_entry (data : list byte) (sa : Z) (fp : FrameProcessor) :
  6 <= len data ->
  (length (buf (dtcChan fp)) <= cap (dtcChan fp))%nat ->
  let n := Z.to_nat ((len data - 2) / 4) in
  ((length (buf (dtcChan fp)) + n <= cap (dtcChan fp))%nat ->
   exists fp' recs,
     parseDM2 data sa fp = Ret fp'
     /\ buf (dtcChan fp') = buf (dtcChan fp) ++ recs
     /\ length recs = n
     /\ Forall (dm_record sa) recs
     /\ (forall (k : nat) d, recs !! k = Some d ->
           dtc_entry data (2 + Z.of_nat k * 4) = Ret (SPN d, FMI d, OC d))
     /\ j1939.data fp' = j1939.data fp /\ db fp' = db fp)
  /\ ((cap (dtcChan fp) < length (buf (dtcChan fp)) + n)%nat ->
      parseDM2 data sa fp = Block).
Proof.
intros Hlen Hinv n.
assert (Hq : Z.quot (len data - 2) 4 = (len data - 2) / 4) by (apply Z.quot_div_nonneg; lia).
assert (Hn : 2 + (0 + Z.of_nat n) * 4 <= len data).
{ subst n. rewrite Z2Nat.id by (apply Z.div_pos; lia).
  pose proof (Z.mul_div_le (len data - 2) 4 ltac:(lia)). lia. }
unfold parseDM2. destruct (Z.ltb_spec (len data) 6); [lia|].
rewrite Hq. fold n.
set (fp0 := if negb _ then _ else fp).
assert (Hfp0 : dtcChan fp0 = dtcChan fp /\ j1939.data fp0 = j1939.data fp /\ db fp0 = db fp)
  by (subst fp0; destruct (negb _); auto).
destruct Hfp0 as (Hc & Hd & Hdb).
split; intros Hroom.
- destruct (parseDM2_loop_room data sa n 0 fp0) as (fp' & recs & Hrun & Hbuf & Hl & Hall & Hk & Hd' & Hdb' & _);
    [lia|exact Hn|rewrite Hc; exact Hroom|].
  exists fp', recs. rewrite <- Hc. repeat split; auto; try congruence.
- apply parseDM2_loop_full; [lia|exact Hn|rewrite Hc; exact Hroom|rewrite Hc; exact Hinv].
Qed.


Lemma parseDM1_one_entry (l0 l1 e0 e1 e2 e3 : byte) (sa : Z) (fp : FrameProcessor) :
  parseDM1 [l0; l1; e0; e1; e2; e3] sa fp =
  let spn := b2z e0 + 256 * b2z e1 + 65536 * (b2z e2 / 32) in
  let fmi := b2z e2 mod 32 in
  let oc := b2z e3 mod 128 in
  '(fp, skip) ←
    match db fp with
    | Some d =>
        '(d, isNew, err) ← storage.IsNew d spn fmi;
        let fp := with_db d fp in
        match err with
        | Some e => Ret (log (LogDM1IsNewError sa spn fmi e) fp, false)
        | None => Ret (fp, negb isNew)
        end
    | None => Ret (log LogDM1NoDB fp, false)
    end;
  if (skip : bool) then Ret fp
  else
    fp ← send_dtc (mkDTC sa 0 spn fmi oc (hd 0 (clock fp))) (with_clock (tl (clock fp)) fp);
    Ret fp.
Proof.
change (parseDM1 [l0; l1; e0; e1; e2; e3] sa fp)
  with (parseDM1_loop 1 0 [l0; l1; e0; e1; e2; e3] sa fp).
cbn [parseDM1_loop].
change (2 + 0 * 4 + 3 >=? len [l0; l1; e0; e1; e2; e3]) with false. cbv iota.
rewrite (dtc_entry_value [l0; l1; e0; e1; e2; e3] (2 + 0 * 4) e0 e1 e2 e3)
  by (reflexivity || lia).
cbn [mbind outcome_bind].
destruct (db fp) as [d|]; cbn [mbind outcome_bind];
  [destruct (storage.IsNew d _ _) as [[[d' isNew] [e|]]| | |]; cbn [mbind outcome_bind]|];
  try reflexivity;
  try (destruct isNew; cbn [negb]; try reflexivity);
  destruct (send_dtc _ _); reflexivity.
Qed.

(** X28.  A DM1 fault that stays active is forwarded once: with a
    working store that has not seen it, a one-entry DM1 message queues
    its record; the same message again, from any source address,
    queues nothing. *)
Theorem dm1_repeat_forwarded_once (l0 l1 e0 e1 e2 e3 : byte) (sa sa' : Z)
    (fp : FrameProcessor) (d : bolt.DB) (b : bolt.Bucket) :
  let spn := b2z e0 + 256 * b2z e1 + 65536 * (b2z e2 / 32) in
  let fmi := b2z e2 mod 32 in
  db fp = Some d -> holds d b -> b !! storage.key spn fmi = None ->
  chan_full (dtcChan fp) = false ->
  exists fp1 fp2,
    parseDM1 [l0; l1; e0; e1; e2; e3] sa fp = Ret fp1
    /\ buf (dtcChan fp1)
       = buf (dtcChan fp) ++ [mkDTC sa 0 spn fmi (b2z e3 mod 128) (hd 0 (clock fp))]
    /\ parseDM1 [l0; l1; e0; e1; e2; e3] sa' fp1 = Ret fp2
    /\ buf (dtcChan fp2) = buf (dtcChan fp1).
Proof.
intros spn fmi Hdb Hh Hk Hroom.
rewrite !parseDM1_one_entry. fold spn fmi. cbv zeta.
rewrite Hdb. rewrite (IsNew_first d b spn fmi Hh Hk). cbn [mbind outcome_bind negb].
unfold send_dtc. cbn [dtcChan with_db with_clock]. rewrite Hroom. cbn [mbind outcome_bind].
eexists _, _. split; [reflexivity|]. split; [reflexivity|].
rewrite parseDM1_one_entry. fold spn fmi. cbv zeta.
cbn [db with_dtcChan with_clock with_db].
rewrite (IsNew_seen (record spn fmi d b) (<[storage.key spn fmi := [x01]]> b) spn fmi);
  [|apply record_holds|rewrite lookup_insert_eq; eauto].
cbn [mbind outcome_bind negb]. split; reflexivity.
Qed.

Lemma dm1_repeat_forwarded_once_witness :
  exists fp1 fp2,
    parseDM1 dm1_payload 0 (new_processor (Some new_db)) = Ret fp1
    /\ buf (dtcChan fp1)
       = buf (dtcChan (new_processor (Some new_db)))
         ++ [mkDTC 0 0 (b2z (z2b 1) + 256 * b2z (z2b 2) + 65536 * (b2z (z2b 0x43) / 32))
                   (b2z (z2b 0x43) mod 32) (b2z (z2b 5) mod 128)
                   (hd 0 (clock (new_processor (Some new_db))))]
    /\ parseDM1 dm1_payload 33 fp1 = Ret fp2
    /\ buf (dtcChan fp2) = buf (dtcChan fp1).
Proof.
apply (dm1_repeat_forwarded_once (z2b 0) (z2b 0) (z2b 1) (z2b 2) (z2b 0x43) (z2b 5) 0 33
         (new_processor (Some new_db)) new_db ∅); [reflexivity|split; reflexivity|reflexivity|reflexivity].
Defined.


Lemma parseDM2_emits_every_entry_witness :
  let data := bytes [0; 0; 1; 2; 0x43; 5; 9; 0; 0x21; 1; 77] in
  let fp := new_processor None in
  let n := Z.to_nat ((len data - 2) / 4) in
  ((length (buf (dtcChan fp)) + n <= cap (dtcChan fp))%nat ->
   exists fp' recs,
     parseDM2 data 0 fp = Ret fp'
     /\ buf (dtcChan fp') = buf (dtcChan fp) ++ recs
     /\ length recs = n
     /\ Forall (dm_record 0) recs
     /\ (forall (k : nat) d, recs !! k = Some d ->
           dtc_entry data (2 + Z.of_nat k * 4) = Ret (SPN d, FMI d, OC d))
     /\ j1939.data fp' = j1939.data fp /\ db fp' = db fp)
  /\ ((cap (dtcChan fp) < length (buf (dtcChan fp)) + n)%nat ->
      parseDM2 data 0 fp = Block).
Proof.
intros data fp.
apply (parseDM2_emits_every_entry data 0 fp); [vm_compute; discriminate | vm_compute; lia].
Defined.

End J1939_dm.

(** ** J1939: stopping the bus *)

Section J1939_bus.
Import j1939bus.

(** X29.  [Stop] never panics and is idempotent: in any state, and
    whatever [unix.Close] answers, it returns with the socket marked
    closed; a second [Stop] returns too and closes nothing again; and
    after [Stop] every [SendCommand] is refused with nothing sent. *)
Theorem Stop_never_panics (e1 e2 e3 : option error) (p : Bus)
    (pgn destAddr : Z) (data : list byte) :
  exists p1 p2,
    Stop e1 p = Ret p1
    /\ fd p1 = -1 /\ sent p1 = sent p
    /\ Stop e2 p1 = Ret p2
    /\ fd p2 = -1 /\ stopChan p2 = stopChan p1 /\ sent p2 = sent p
    /\ SendCommand pgn data destAddr e3 p1 = (p1, Some ErrSocketClosed).
Proof.
unfold Stop, close_stopChan.
destruct p as [f [[|]|] s l]; cbn [log stopChan fd sent logs mbind outcome_bind];
  destruct (Z.eqb_spec f (-1)) as [->|Hf]; cbn [negb];
  destruct e1, e2; cbn;
  (eexists _, _; repeat split; reflexivity).
Qed.

End J1939_bus.
